(** * SplineLibrary: the generic B-spline engine of
      [spline_library/splines/generic_b_spline.h]

    The development embeds [GenericBSplineCommon] (segment location, the de
    Boor position and derivative recursions, the tuple queries and the
    segment arc length) and the two constructors [GenericBSpline] and
    [LoopingGenericBSpline], and proves the properties the specification
    states about them.

    Conventions of the embedding:
    - [size_t] values are integers in [0, 2^64): every [size_t] expression
      of the source is written with its wrap-around ([to_size_t]);
    - [int] values are integers; the source's [int] expressions stay far
      from overflow on the curves considered and are written unwrapped;
    - [floating_t] is the template's scalar type (it defaults to [float],
      which is also the type of the [globalT] parameter of the two
      recursions, so the parameter passes unchanged); it is kept abstract
      behind the operations the source uses on it, and instantiated with
      IEEE binary32 for concrete runs;
    - [assert] is checked in a build without [NDEBUG] and absent in a build
      with it; the constructors take the build as a parameter [ndebug];
    - reading or writing a [std::vector] outside its range is undefined in
      the source: the embedding stops there with [Stuck OutOfRange];
    - every division, every entry into one of the two recursions and every
      quadrature call is recorded in a log, so that statements about what
      a query does (and not only what it returns) can be made. *)

From Stdlib Require Import ZArith List Lia Bool.
From Stdlib Require Import Floats.SpecFloat.
From stdpp Require Import base numbers option list gmap.

Local Open Scope Z_scope.

(** ** Machine integers *)

Definition size_t_modulus : Z := 2 ^ 64.

(** Conversion to [size_t] (unsigned, modulo 2^64). *)
Definition to_size_t (z : Z) : Z := z mod size_t_modulus.

(** [v.size()] *)
Definition vector_size {A} (v : list A) : Z := Z.of_nat (length v).

(** ** The scalar and interpolation types (template parameters) *)

(** The operations the source uses on [floating_t], with the two tests
    ([==] and [isfinite]) the statements below are written with. *)
Class FloatingOps (F : Type) := {
  f_of_int : Z -> F;                 (* implicit conversion from an integer *)
  f_add : F -> F -> F;
  f_sub : F -> F -> F;
  f_mul : F -> F -> F;
  f_div : F -> F -> F;
  f_ltb : F -> F -> bool;            (* operator< *)
  f_eqb : F -> F -> bool;            (* operator==, in statements only *)
  f_finite : F -> bool               (* std::isfinite, in statements only *)
}.

(** The operations the source uses on [InterpolationType]. *)
Class InterpolationOps (F V : Type) := {
  v_default : V;                     (* InterpolationType() *)
  v_add : V -> V -> V;
  v_sub : V -> V -> V;
  v_scale : V -> F -> V;             (* v * s *)
  v_scale_left : F -> V -> V;        (* s * v *)
  v_length : V -> F                  (* v.length() *)
}.

(** The facts about the two types that some properties rest on. They hold
    for IEEE arithmetic and for the library's vectors. *)
Class FloatingLaws (F V : Type) `{FloatingOps F} `{InterpolationOps F V} : Prop := {
  (* a value equal to zero is not greater than zero *)
  f_zero_not_pos : forall x : F,
    f_eqb x (f_of_int 0) = true -> f_ltb (f_of_int 0) x = false;
  (* the difference of two default values is the default value *)
  v_sub_default : v_sub (v_default : V) v_default = v_default;
  (* a finite positive scalar times the default value is the default value *)
  v_scale_left_default : forall s : F,
    f_finite s = true -> f_ltb (f_of_int 0) s = true ->
    v_scale_left s (v_default : V) = v_default
}.

(** ** Outcomes: a value and the log of what was done, or a fault *)

Inductive fault :=
| OutOfRange        (* a vector read or written outside its range *)
| AssertionFailed   (* an [assert] that does not hold *)
| NoReturn.         (* a recursion that never reaches its base case *)

Inductive event (F : Type) :=
| EvDivide (denominator : F)
| EvDeboor (knotIndex : Z) (degree : nat)
| EvDerivative (knotIndex : Z) (degree : nat) (derivativeLevel : Z)
| EvQuadrature (a b : F).
Arguments EvDivide {F} denominator.
Arguments EvDeboor {F} knotIndex degree.
Arguments EvDerivative {F} knotIndex degree derivativeLevel.
Arguments EvQuadrature {F} a b.

Inductive outcome (F A : Type) :=
| Done (a : A) (log : list (event F))
| Stuck (f : fault).
Arguments Done {F A} a log.
Arguments Stuck {F A} f.

Definition outcome_bind {F A B} (k : A -> outcome F B) (m : outcome F A) : outcome F B :=
  match m with
  | Done a log =>
      match k a with
      | Done b log' => Done b (log ++ log')
      | Stuck f => Stuck f
      end
  | Stuck f => Stuck f
  end.

#[global] Instance outcome_ret F : MRet (outcome F) := fun A a => Done a [].
#[global] Instance outcome_mbind F : MBind (outcome F) := fun A B => outcome_bind.

(** The value of an outcome, forgetting the log. *)
Definition value {F A} (m : outcome F A) : option A :=
  match m with
  | Done a _ => Some a
  | Stuck _ => None
  end.

(** The log of an outcome (empty for a fault). *)
Definition log_of {F A} (m : outcome F A) : list (event F) :=
  match m with
  | Done _ log => log
  | Stuck _ => []
  end.

Definition record {F} (e : event F) : outcome F unit := Done tt [e].

(** [v[i]] for a [size_t] index. *)
Definition at_index {F A} (v : list A) (i : Z) : outcome F A :=
  if i <? 0 then Stuck OutOfRange
  else match v !! Z.to_nat i with
       | Some x => mret x
       | None => Stuck OutOfRange
       end.

(** [v[i] = x] for a [size_t] index. *)
Definition set_index {F A} (v : list A) (i : Z) (x : A) : outcome F (list A) :=
  if (0 <=? i) && (i <? vector_size v) then mret (<[Z.to_nat i := x]> v)
  else Stuck OutOfRange.

Section Engine.
Context {F V : Type} `{FloatingOps F} `{InterpolationOps F V}.

Notation "a +f b" := (f_add a b) (at level 50, left associativity).
Notation "a -f b" := (f_sub a b) (at level 50, left associativity).
Notation "a +v b" := (v_add a b) (at level 50, left associativity).
Notation "a -v b" := (v_sub a b) (at level 50, left associativity).

(** [a / b], recorded. *)
Definition divide (a b : F) : outcome F F := Done (f_div a b) [EvDivide b].

(** *** GenericBSplineCommon *)

Record GenericBSplineCommon := {
  positions : list V;
  knots : list F;
  splineDegree : Z
}.

(** [SplineCommon::getIndexForT] is declared outside this file; it maps a
    knot vector and a parameter to a [size_t]. *)
Variable getIndexForT : list F -> F -> Z.

Definition segmentCount (c : GenericBSplineCommon) : Z :=
  to_size_t (vector_size (positions c) - splineDegree c).

Definition segmentForT (c : GenericBSplineCommon) (t : F) : Z :=
  if f_ltb t (f_of_int 0) then 0
  else
    let segmentIndex := to_size_t (getIndexForT (knots c) t - (splineDegree c - 1)) in
    if segmentIndex >? to_size_t (segmentCount c - 1)
    then to_size_t (segmentCount c - 1)
    else segmentIndex.

Definition segmentT (c : GenericBSplineCommon) (segmentIndex : Z) : outcome F F :=
  at_index (knots c) (to_size_t (segmentIndex + splineDegree c - 1)).

(** The recursion of [computeDeboor] on its [degree] argument. *)
Fixpoint computeDeboor_rec (c : GenericBSplineCommon) (degree : nat)
    (knotIndex : Z) (globalT : F) : outcome F V :=
  _ ← record (EvDeboor knotIndex degree);
  match degree with
  | O => at_index (positions c) knotIndex
  | S degree' =>
      k0 ← at_index (knots c) (to_size_t (knotIndex - 1));
      k1 ← at_index (knots c)
             (to_size_t (knotIndex + splineDegree c - Z.of_nat degree));
      alpha ← divide (globalT -f k0) (k1 -f k0);
      leftRecursive ← computeDeboor_rec c degree' (to_size_t (knotIndex - 1)) globalT;
      rightRecursive ← computeDeboor_rec c degree' knotIndex globalT;
      mret (v_scale leftRecursive (f_of_int 1 -f alpha) +v v_scale rightRecursive alpha)
  end.

(** [computeDeboor(knotIndex, degree, globalT)]: a negative [degree]
    never meets [degree == 0]. *)
Definition computeDeboor (c : GenericBSplineCommon) (knotIndex degree : Z)
    (globalT : F) : outcome F V :=
  if degree <? 0 then Stuck NoReturn
  else computeDeboor_rec c (Z.to_nat degree) knotIndex globalT.

(** The recursion of [computeDeboorDerivative] on its [degree] argument. *)
Fixpoint computeDeboorDerivative_rec (c : GenericBSplineCommon) (degree : nat)
    (knotIndex : Z) (globalT : F) (derivativeLevel : Z) : outcome F V :=
  _ ← record (EvDerivative knotIndex degree derivativeLevel);
  match degree with
  | O => mret v_default
  | S degree' =>
      k1 ← at_index (knots c)
             (to_size_t (knotIndex + splineDegree c - Z.of_nat degree));
      k0 ← at_index (knots c) (to_size_t (knotIndex - 1));
      multiplier ← divide (f_of_int (Z.of_nat degree)) (k1 -f k0);
      if derivativeLevel <=? 1 then
        hi ← computeDeboor_rec c degree' knotIndex globalT;
        lo ← computeDeboor_rec c degree' (to_size_t (knotIndex - 1)) globalT;
        mret (v_scale_left multiplier (hi -v lo))
      else
        hi ← computeDeboorDerivative_rec c degree' knotIndex globalT
               (derivativeLevel - 1);
        lo ← computeDeboorDerivative_rec c degree' (to_size_t (knotIndex - 1)) globalT
               (derivativeLevel - 1);
        mret (v_scale_left multiplier (hi -v lo))
  end.

Definition computeDeboorDerivative (c : GenericBSplineCommon) (knotIndex degree : Z)
    (globalT : F) (derivativeLevel : Z) : outcome F V :=
  if degree <? 0 then Stuck NoReturn
  else computeDeboorDerivative_rec c (Z.to_nat degree) knotIndex globalT derivativeLevel.

(** *** The queries *)

(** The tuples of [Spline<InterpolationType,floating_t>]. *)
Record InterpolatedPT := { pt_position : V; pt_tangent : V }.
Record InterpolatedPTC := { ptc_position : V; ptc_tangent : V; ptc_curvature : V }.
Record InterpolatedPTCW :=
  { ptcw_position : V; ptcw_tangent : V; ptcw_curvature : V; ptcw_wiggle : V }.

Definition getPosition (c : GenericBSplineCommon) (globalT : F) : outcome F V :=
  let segmentIndex := segmentForT c globalT in
  let innerIndex := to_size_t (segmentIndex + (splineDegree c - 1)) in
  computeDeboor c (to_size_t (innerIndex + 1)) (splineDegree c) globalT.

Definition getTangent (c : GenericBSplineCommon) (globalT : F) : outcome F InterpolatedPT :=
  let segmentIndex := segmentForT c globalT in
  let innerIndex := to_size_t (segmentIndex + (splineDegree c - 1)) in
  p ← computeDeboor c (to_size_t (innerIndex + 1)) (splineDegree c) globalT;
  t1 ← computeDeboorDerivative c (to_size_t (innerIndex + 1)) (splineDegree c) globalT 1;
  mret {| pt_position := p; pt_tangent := t1 |}.

Definition getCurvature (c : GenericBSplineCommon) (globalT : F) : outcome F InterpolatedPTC :=
  let segmentIndex := segmentForT c globalT in
  let innerIndex := to_size_t (segmentIndex + (splineDegree c - 1)) in
  p ← computeDeboor c (to_size_t (innerIndex + 1)) (splineDegree c) globalT;
  t1 ← computeDeboorDerivative c (to_size_t (innerIndex + 1)) (splineDegree c) globalT 1;
  t2 ← computeDeboorDerivative c (to_size_t (innerIndex + 1)) (splineDegree c) globalT 2;
  mret {| ptc_position := p; ptc_tangent := t1; ptc_curvature := t2 |}.

Definition getWiggle (c : GenericBSplineCommon) (globalT : F) : outcome F InterpolatedPTCW :=
  let segmentIndex := segmentForT c globalT in
  let innerIndex := to_size_t (segmentIndex + (splineDegree c - 1)) in
  p ← computeDeboor c (to_size_t (innerIndex + 1)) (splineDegree c) globalT;
  t1 ← computeDeboorDerivative c (to_size_t (innerIndex + 1)) (splineDegree c) globalT 1;
  t2 ← computeDeboorDerivative c (to_size_t (innerIndex + 1)) (splineDegree c) globalT 2;
  t3 ← computeDeboorDerivative c (to_size_t (innerIndex + 1)) (splineDegree c) globalT 3;
  mret {| ptcw_position := p; ptcw_tangent := t1; ptcw_curvature := t2; ptcw_wiggle := t3 |}.

(** The logs of the four queries at a parameter. *)
Definition queryLogs (c : GenericBSplineCommon) (t : F) : list (list (event F)) :=
  [log_of (getPosition c t); log_of (getTangent c t);
   log_of (getCurvature c t); log_of (getWiggle c t)].

(** [SplineLibraryCalculus::gaussLegendreQuadratureIntegral] is declared
    outside this file; it integrates a function over an interval. *)
Variable gaussLegendreQuadratureIntegral : (F -> outcome F F) -> F -> F -> outcome F F.

(** The lambda [segmentFunction] of [segmentLength]. *)
Definition segmentFunction (c : GenericBSplineCommon) (innerIndex : Z) (t : F) : outcome F F :=
  tangent ← computeDeboorDerivative c (to_size_t (innerIndex + 1)) (splineDegree c) t 1;
  mret (v_length tangent).

Definition segmentLength (c : GenericBSplineCommon) (segmentIndex : Z) (a b : F) : outcome F F :=
  let innerIndex := to_size_t (segmentIndex + splineDegree c - 1) in
  k1 ← at_index (knots c) (to_size_t (innerIndex + 1));
  k0 ← at_index (knots c) innerIndex;
  let tDistance := k1 -f k0 in
  if f_ltb (f_of_int 0) tDistance then
    _ ← record (EvQuadrature a b);
    gaussLegendreQuadratureIntegral (segmentFunction c innerIndex) a b
  else mret (f_of_int 0).

(** *** The constructors *)

(** Conversion of a [size_t] to [int] (32 bits, two's complement). *)
Definition to_int (z : Z) : Z := (z + 2 ^ 31) mod 2 ^ 32 - 2 ^ 31.

(** [SplineCommon::computeTValuesWithOuterPadding] and
    [SplineCommon::computeLoopingTValues] are declared outside this file;
    each maps the points, the exponent and the padding to a table from
    (possibly negative) indices to parameter values. *)
Variable computeTValuesWithOuterPadding : list V -> F -> Z -> gmap Z F.
Variable computeLoopingTValues : list V -> F -> Z -> gmap Z F.

(** [knots[i + padding] = indexToT[i]] for each [i] of the loop, in order.
    Reading a missing key of the table yields a value-initialised entry. *)
Fixpoint copyKnots (indexToT : gmap Z F) (padding : Z) (indices : list Z)
    (knots : list F) : outcome F (list F) :=
  match indices with
  | [] => mret knots
  | i :: indices' =>
      knots' ← set_index knots (to_size_t (i + padding))
                 (default (f_of_int 0) (indexToT !! i));
      copyKnots indexToT padding indices' knots'
  end.

(** [std::copy(src.begin(), src.end(), dst.begin() + pos)] *)
Fixpoint copyTo (src dst : list V) (pos : Z) : outcome F (list V) :=
  match src with
  | [] => mret dst
  | x :: src' =>
      dst' ← set_index dst pos x;
      copyTo src' dst' (pos + 1)
  end.

(** [std::copy_n(src.begin(), n, dst.begin() + pos)] *)
Definition copyN (src : list V) (n : Z) (dst : list V) (pos : Z) : outcome F (list V) :=
  if n <=? 0 then mret dst
  else if n >? vector_size src then Stuck OutOfRange
  else copyTo (take (Z.to_nat n) src) dst pos.

(** [assert(e)] lets the constructor go on when [e] holds, and also when
    the build defines [NDEBUG], which compiles the assertion out. *)
Definition assertPasses (ndebug e : bool) : bool := e || ndebug.

Definition GenericBSpline (ndebug : bool) (points : list V) (degree : Z)
    : outcome F GenericBSplineCommon :=
  if assertPasses ndebug (vector_size points >? to_size_t degree) then
    let size_ := to_int (vector_size points) in
    let padding := degree - 1 in
    let indexToT := computeTValuesWithOuterPadding points (f_of_int 0) padding in
    knots ← copyKnots indexToT padding
              (seqZ (- padding) (size_ + padding - (- padding)))
              (replicate (size indexToT) (f_of_int 0));
    mret {| positions := points; knots := knots; splineDegree := degree |}
  else Stuck AssertionFailed.

Definition LoopingGenericBSpline (ndebug : bool) (points : list V) (degree : Z)
    : outcome F GenericBSplineCommon :=
  if assertPasses ndebug (vector_size points >? to_size_t degree) then
    let size_ := to_int (vector_size points) in
    let padding := degree - 1 in
    let indexToT := computeLoopingTValues points (f_of_int 0) padding in
    let positions0 := replicate (Z.to_nat (to_size_t (vector_size points + degree))) v_default in
    last ← at_index points (to_size_t (size_ - 1));
    positions1 ← set_index positions0 0 last;
    positions2 ← copyTo points positions1 1;
    positions3 ← copyN points padding positions2 (vector_size positions2 - padding);
    knots ← copyKnots indexToT padding
              (seqZ (- padding) (size_ + padding + 1 - (- padding)))
              (replicate (size indexToT) (f_of_int 0));
    mret {| positions := positions3; knots := knots; splineDegree := degree |}
  else Stuck AssertionFailed.

(** *** The recursions as the specification words them

    Section 4.3 of the specification, on plain integer indices: no
    wrap-around, no log. An index outside a stored sequence has no value. *)

Definition knotAt (c : GenericBSplineCommon) (i : Z) : option F :=
  if i <? 0 then None else knots c !! Z.to_nat i.

Definition positionAt (c : GenericBSplineCommon) (i : Z) : option V :=
  if i <? 0 then None else positions c !! Z.to_nat i.

Fixpoint positionRecursion (c : GenericBSplineCommon) (d : nat) (i : Z) (t : F)
    : option V :=
  match d with
  | O => positionAt c i
  | S d' =>
      kLow ← knotAt c (i - 1);
      kHigh ← knotAt c (i + splineDegree c - Z.of_nat d);
      let alpha := f_div (t -f kLow) (kHigh -f kLow) in
      leftValue ← positionRecursion c d' (i - 1) t;
      rightValue ← positionRecursion c d' i t;
      Some (v_scale leftValue (f_of_int 1 -f alpha) +v v_scale rightValue alpha)
  end.

Fixpoint derivativeRecursion (c : GenericBSplineCommon) (d : nat) (i : Z) (t : F)
    (level : Z) : option V :=
  match d with
  | O => Some v_default
  | S d' =>
      kHigh ← knotAt c (i + splineDegree c - Z.of_nat d);
      kLow ← knotAt c (i - 1);
      let multiplier := f_div (f_of_int (Z.of_nat d)) (kHigh -f kLow) in
      if level =? 1 then
        a ← positionRecursion c d' i t;
        b ← positionRecursion c d' (i - 1) t;
        Some (v_scale_left multiplier (a -v b))
      else if level >? 1 then
        a ← derivativeRecursion c d' i t (level - 1);
        b ← derivativeRecursion c d' (i - 1) t (level - 1);
        Some (v_scale_left multiplier (a -v b))
      else None
  end.

(** *** Predicates used in the statements *)

(** What the constructors establish: a positive degree, more positions
    than the degree, and a knot for every index the recursions reach. *)
Definition wellFormed (c : GenericBSplineCommon) : Prop :=
  1 <= splineDegree c
  /\ splineDegree c < vector_size (positions c)
  /\ vector_size (positions c) + splineDegree c - 1 <= vector_size (knots c)
  /\ vector_size (knots c) < size_t_modulus.

(** [s] is one of the curve's segments. *)
Definition validSegment (c : GenericBSplineCommon) (s : Z) : Prop :=
  0 <= s < vector_size (positions c) - splineDegree c.

Definition isZero (x : F) : bool := f_eqb x (f_of_int 0).

(** A division by a denominator equal to zero is in the log. *)
Definition dividesByZero (log : list (event F)) : bool :=
  existsb (fun e => match e with EvDivide den => isZero den | _ => false end) log.

(** The knot spans that cover segment [s]: [knots[hi] - knots[lo]] with
    [lo] at or below the segment's inner index and [hi] above it. *)
Definition coveringSpan (c : GenericBSplineCommon) (s : Z) (den : F) : Prop :=
  exists lo hi kLow kHigh,
    s <= lo <= s + splineDegree c - 1
    /\ s + splineDegree c - 1 < hi <= s + 2 * splineDegree c - 1
    /\ knotAt c lo = Some kLow /\ knotAt c hi = Some kHigh
    /\ den = kHigh -f kLow.

Definition dividesByCoveringSpans (c : GenericBSplineCommon) (s : Z)
    (log : list (event F)) : Prop :=
  Forall (fun e => match e with EvDivide den => coveringSpan c s den | _ => True end) log.

(** The knot span of segment [s] itself. *)
Definition segmentSpan (c : GenericBSplineCommon) (s : Z) : option F :=
  kHigh ← knotAt c (s + splineDegree c);
  kLow ← knotAt c (s + splineDegree c - 1);
  Some (kHigh -f kLow).

(** The multiplier of the derivative recursion at index [i] and degree [d]. *)
Definition multiplierAt (c : GenericBSplineCommon) (i d : Z) : option F :=
  kHigh ← knotAt c (i + splineDegree c - d);
  kLow ← knotAt c (i - 1);
  Some (f_div (f_of_int d) (kHigh -f kLow)).

(** Every multiplier the derivative recursion of segment [s] computes is
    finite and positive. *)
Definition regularMultipliers (c : GenericBSplineCommon) (s : Z) : Prop :=
  forall i d m,
    1 <= d <= splineDegree c -> s + d <= i <= s + splineDegree c ->
    multiplierAt c i d = Some m ->
    f_finite m = true /\ f_ltb (f_of_int 0) m = true.

End Engine.

(** ** IEEE binary32, the default [floating_t] *)

Module Binary32.
Definition prec : Z := 24.
Definition emax : Z := 128.

Definition float : Type := spec_float.

Definition of_int (z : Z) : float := binary_normalize prec emax z 0 false.

Definition finite (x : float) : bool :=
  match x with
  | S754_zero _ | S754_finite _ _ _ => true
  | S754_infinity _ | S754_nan => false
  end.

#[global] Instance ops : FloatingOps float := {|
  f_of_int := of_int;
  f_add := SFadd prec emax;
  f_sub := SFsub prec emax;
  f_mul := SFmul prec emax;
  f_div := SFdiv prec emax;
  f_ltb := SFltb;
  f_eqb := SFeqb;
  f_finite := finite
|}.
End Binary32.

(** ** Vector2, a two-dimensional [InterpolationType] over binary32 *)

Module Vector2.
Import Binary32.

(** Modelled from the spec: the point type [Vector2] (spline_library/vector.h)
    is supplied by the caller and supports addition, subtraction, scalar
    multiplication and magnitude; the operations act on each coordinate. *)
Record t := mk { x : float; y : float }.

Definition default : t := mk (of_int 0) (of_int 0).
Definition add (a b : t) : t := mk (f_add (x a) (x b)) (f_add (y a) (y b)).
Definition sub (a b : t) : t := mk (f_sub (x a) (x b)) (f_sub (y a) (y b)).
Definition scale (a : t) (s : float) : t := mk (f_mul (x a) s) (f_mul (y a) s).
Definition scale_left (s : float) (a : t) : t := mk (f_mul s (x a)) (f_mul s (y a)).
Definition length (a : t) : float :=
  SFsqrt prec emax (f_add (f_mul (x a) (x a)) (f_mul (y a) (y a))).

(** The point with integer coordinates [(a, b)]. *)
Definition of_ints (a b : Z) : t := mk (of_int a) (of_int b).

#[global] Instance ops : InterpolationOps float t := {|
  v_default := default;
  v_add := add;
  v_sub := sub;
  v_scale := scale;
  v_scale_left := scale_left;
  v_length := length
|}.
End Vector2.

(** ** The collaborators declared outside the file, from the specification *)

Section Collaborators.
Context {F V : Type} `{FloatingOps F} `{InterpolationOps F V}.

(** The last index whose knot is not above [t], scanning from [index]. *)
Fixpoint greatestIndexAtMost (knotData : list F) (t : F) (index best : Z) : Z :=
  match knotData with
  | [] => best
  | k :: rest =>
      greatestIndexAtMost rest t (index + 1) (if f_ltb t k then best else index)
  end.

(** Modelled from the spec: [SplineCommon::getIndexForT] is the ordered
    search of the Segment Locator (4.2), which finds "the greatest knot
    index <= t". *)
Definition getIndexForT (knotData : list F) (t : F) : Z :=
  greatestIndexAtMost knotData t 0 0.

(** Running sums [from], [from + step], ... ([n] values). *)
Fixpoint runningSum (step from : F) (n : nat) : list F :=
  match n with
  | O => []
  | S n' => from :: runningSum step (f_add from step) n'
  end.

(** Running differences [from - step], [from - 2 step], ... ([n] values). *)
Fixpoint runningDifference (step from : F) (n : nat) : list F :=
  match n with
  | O => []
  | S n' => f_sub from step :: runningDifference step (f_sub from step) n'
  end.

(** The knot table on the indices [-before .. after - 1], uniform spacing. *)
Definition uniformTValues (before after : Z) : gmap Z F :=
  list_to_map
    (zip (seqZ 0 after) (runningSum (f_of_int 1) (f_of_int 0) (Z.to_nat after))
     ++ zip ((fun k => - k - 1) <$> seqZ 0 before)
            (runningDifference (f_of_int 1) (f_of_int 0) (Z.to_nat before))).

(** Modelled from the spec: [SplineCommon::computeTValuesWithOuterPadding]
    is the Knot Builder (4.1) for open curves, "a knot sequence indexed
    from -P to (count-1+P) inclusive", "accumulated by running sum
    starting from knot[0]=0"; only the exponent 0 the constructors pass is
    modelled, for which "alpha=0 forces increment=1". *)
Definition computeTValuesWithOuterPadding (points : list V) (alpha : F) (padding : Z)
    : gmap Z F :=
  uniformTValues padding (vector_size points + padding).

(** Modelled from the spec: [SplineCommon::computeLoopingTValues] is the
    Knot Builder's looping variant (4.1), with "P extra knots at each end"
    "plus one extra trailing knot"; only the exponent 0 is modelled. *)
Definition computeLoopingTValues (points : list V) (alpha : F) (padding : Z)
    : gmap Z F :=
  uniformTValues padding (vector_size points + padding + 1).

(** The weighted sum of the values of [f] at the abscissas of the table,
    scaled into the interval of half-width [halfDiff] around [halfSum]. *)
Fixpoint weightedSum (table : list (F * F)) (f : F -> outcome F F)
    (halfDiff halfSum : F) (sum : F) : outcome F F :=
  match table with
  | [] => mret sum
  | (abscissa, weight) :: table' =>
      fx ← f (f_add (f_mul halfDiff abscissa) halfSum);
      weightedSum table' f halfDiff halfSum (f_add sum (f_mul weight fx))
  end.

(** Modelled from the spec: [gaussLegendreQuadratureIntegral] is the
    quadrature of the Arc-Length Estimator (4.4), "a weighted sum of
    function evaluations at precomputed sample abscissas scaled into
    [a,b]"; the table of (abscissa, weight) pairs is a parameter. *)
Definition gaussLegendreQuadratureIntegral (table : list (F * F))
    (f : F -> outcome F F) (a b : F) : outcome F F :=
  halfDiff ← divide (f_sub b a) (f_of_int 2);
  halfSum ← divide (f_add a b) (f_of_int 2);
  sum ← weightedSum table f halfDiff halfSum (f_of_int 0);
  mret (f_mul halfDiff sum).
End Collaborators.

(** ** Concrete curves over binary32 *)

Module Sample.
Import Binary32.

(** The one-point Gauss-Legendre rule: abscissa 0, weight 2. *)
Definition onePoint : list (float * float) := [(of_int 0, of_int 2)].

Definition segmentForT := segmentForT (F:=float) (V:=Vector2.t) getIndexForT.
Definition getPosition := getPosition (F:=float) (V:=Vector2.t) getIndexForT.
Definition getTangent := getTangent (F:=float) (V:=Vector2.t) getIndexForT.
Definition getCurvature := getCurvature (F:=float) (V:=Vector2.t) getIndexForT.
Definition getWiggle := getWiggle (F:=float) (V:=Vector2.t) getIndexForT.
Definition segmentLength :=
  segmentLength (F:=float) (V:=Vector2.t) (gaussLegendreQuadratureIntegral onePoint).
(** The open constructor in a build with [NDEBUG], and both constructors in
    a build with assertions. *)
Definition GenericBSplineNDEBUG :=
  GenericBSpline (F:=float) (V:=Vector2.t) computeTValuesWithOuterPadding true.
Definition GenericBSpline :=
  GenericBSpline (F:=float) (V:=Vector2.t) computeTValuesWithOuterPadding false.
Definition LoopingGenericBSpline :=
  LoopingGenericBSpline (F:=float) (V:=Vector2.t) computeLoopingTValues false.

(** The five planar points of the specification's example (section 8). *)
Definition fivePoints : list Vector2.t :=
  [Vector2.of_ints 0 0; Vector2.of_ints 1 2; Vector2.of_ints 3 3;
   Vector2.of_ints 4 1; Vector2.of_ints 6 0].

(** The curve the open constructor builds from them at degree 3. *)
Definition fiveCurve : GenericBSplineCommon (F:=float) (V:=Vector2.t) :=
  {| positions := fivePoints;
     knots := of_int <$> seqZ (-2) 9;
     splineDegree := 3 |}.

(** A curve whose two knots coincide (a zero-length segment), built with
    the constructor of [GenericBSplineCommon]. *)
Definition degenerate : GenericBSplineCommon (F:=float) (V:=Vector2.t) :=
  {| positions := [Vector2.of_ints 0 0; Vector2.of_ints 1 2];
     knots := [of_int 0; of_int 0];
     splineDegree := 1 |}.
End Sample.

(** ** The helpers of [test/common.h] *)

Section TestHelpers.
Context {F V : Type} `{FloatingOps F} `{InterpolationOps F V}.

(** The literal [0.5f]. *)
Variable half : F.

(** The first loop of [addPadding]: [n] times,
    [list.insert(list.begin(), list[0] - (list[1] - list[0]))]. *)
Fixpoint padFront (n : nat) (lst : list V) : outcome F (list V) :=
  match n with
  | O => mret lst
  | S n' =>
      first ← at_index lst 0;
      second ← at_index lst 1;
      padFront n' (v_sub first (v_sub second first) :: lst)
  end.

(** The second loop of [addPadding]: [n] times,
    [list.push_back(list[size-1] + (list[size-1] - list[size-2]))]. *)
Fixpoint padBack (n : nat) (lst : list V) : outcome F (list V) :=
  match n with
  | O => mret lst
  | S n' =>
      last ← at_index lst (to_size_t (vector_size lst - 1));
      beforeLast ← at_index lst (to_size_t (vector_size lst - 2));
      padBack n' (lst ++ [v_add last (v_sub last beforeLast)])
  end.

(** [addPadding(list, paddingSize)]; [paddingSize] is a [size_t]. *)
Definition addPadding (lst : list V) (paddingSize : Z) : outcome F (list V) :=
  padded ← padFront (Z.to_nat paddingSize) lst;
  padBack (Z.to_nat paddingSize) padded.

(** The loop of [makeTangents]: for each [i],
    [tangents[i] = 0.5f * ((points[i+1] - points[i]) + (points[i] - points[i-1]))]. *)
Fixpoint fillTangents (points : list V) (indices : list Z) (tangents : list V)
    : outcome F (list V) :=
  match indices with
  | [] => mret tangents
  | i :: indices' =>
      next ← at_index points (to_size_t (i + 1));
      current ← at_index points i;
      previous ← at_index points (to_size_t (i - 1));
      tangents' ← set_index tangents i
                    (v_scale_left half
                       (v_add (v_sub next current) (v_sub current previous)));
      fillTangents points indices' tangents'
  end.

(** [makeTangents(points)] *)
Definition makeTangents (points : list V) : outcome F (list V) :=
  let tangents0 := replicate (length points) v_default in
  second ← at_index points 1;
  first ← at_index points 0;
  tangents1 ← set_index tangents0 0 (v_sub second first);
  tangents2 ← fillTangents points
                (seqZ 1 (to_size_t (vector_size points - 1) - 1)) tangents1;
  last ← at_index points (to_size_t (vector_size points - 1));
  beforeLast ← at_index points (to_size_t (vector_size points - 2));
  set_index tangents2 (to_size_t (vector_size tangents2 - 1)) (v_sub last beforeLast).

End TestHelpers.

(** [compareFloatsLenient(actual, expected, tol)] at [T = float]: the result
    tells whether [QFAIL] is reached. *)
Definition compareFloatsLenient (actual expected tol : Binary32.float) : bool :=
  let error :=
    SFdiv Binary32.prec Binary32.emax
      (SFabs (SFsub Binary32.prec Binary32.emax actual expected)) expected in
  SFltb tol error.

(** Two curves agree on the window of segment [s]: the same degree, the
    same positions [s .. s+degree] and the same knots [s .. s+2*degree-1]. *)
Definition sameWindow {F V} (c c' : GenericBSplineCommon (F:=F) (V:=V)) (s : Z) : Prop :=
  splineDegree c = splineDegree c'
  /\ (forall j, s <= j <= s + splineDegree c ->
      positions c !! Z.to_nat j = positions c' !! Z.to_nat j)
  /\ (forall j, s <= j <= s + 2 * splineDegree c - 1 ->
      knots c !! Z.to_nat j = knots c' !! Z.to_nat j).

(** The number of divisions in a log. *)
Fixpoint divisionCount {F} (log : list (event F)) : nat :=
  match log with
  | [] => 0
  | EvDivide _ :: log' => S (divisionCount log')
  | _ :: log' => divisionCount log'
  end.

(** The helpers at binary32 and [Vector2]. *)
Module TestSample.
Definition half : Binary32.float := S754_finite false 8388608 (-24).
Definition addPadding := addPadding (F:=Binary32.float) (V:=Vector2.t).
Definition makeTangents := makeTangents (F:=Binary32.float) (V:=Vector2.t) half.

(** The five-point curve with its last control point moved to (9, 9). *)
Definition movedCurve : GenericBSplineCommon (F:=Binary32.float) (V:=Vector2.t) :=
  {| positions := <[4%nat := Vector2.of_ints 9 9]> Sample.fivePoints;
     knots := knots Sample.fiveCurve;
     splineDegree := 3 |}.

(** A cubic with two positions only, as no constructor would build it. *)
Definition starvedCurve : GenericBSplineCommon (F:=Binary32.float) (V:=Vector2.t) :=
  {| positions := [Vector2.of_ints 0 0; Vector2.of_ints 1 2];
     knots := Binary32.of_int <$> seqZ (-2) 6;
     splineDegree := 3 |}.

(** The five points as a curve of degree 0. *)
Definition stepCurve : GenericBSplineCommon (F:=Binary32.float) (V:=Vector2.t) :=
  {| positions := Sample.fivePoints;
     knots := Binary32.of_int <$> seqZ 0 5;
     splineDegree := 0 |}.
End TestSample.

(** * Properties *)

(** ** Integers, outcomes and vector access *)

Lemma to_size_t_id z : 0 <= z < size_t_modulus -> to_size_t z = z.
Proof. intros Hz. unfold to_size_t. apply Z.mod_small. exact Hz. Qed.

Lemma to_size_t_range z : 0 <= to_size_t z < size_t_modulus.
Proof. unfold to_size_t. apply Z.mod_pos_bound. reflexivity. Qed.

Section OutcomeFacts.
Context {F : Type}.

Lemma bind_done {A B} (m : outcome F A) (k : A -> outcome F B) a l b l' :
  m = Done a l -> k a = Done b l' -> (m ≫= k) = Done b (l ++ l').
Proof. intros -> Hk. unfold mbind, outcome_mbind, outcome_bind. by rewrite Hk. Qed.

Lemma bind_stuck {A B} (m : outcome F A) (k : A -> outcome F B) f :
  m = Stuck f -> (m ≫= k) = Stuck f.
Proof. by intros ->. Qed.

Lemma bind_done_stuck {A B} (m : outcome F A) (k : A -> outcome F B) a l f :
  m = Done a l -> k a = Stuck f -> (m ≫= k) = Stuck f.
Proof. intros -> Hk. unfold mbind, outcome_mbind, outcome_bind. by rewrite Hk. Qed.

Lemma bind_pure {A B} (a : A) (k : A -> outcome F B) :
  (Done a [] ≫= k) = k a.
Proof. unfold mbind, outcome_mbind, outcome_bind. by destruct (k a). Qed.

Lemma bind_done_inv {A B} (m : outcome F A) (k : A -> outcome F B) b l :
  (m ≫= k) = Done b l ->
  exists a l1 l2, m = Done a l1 /\ k a = Done b l2 /\ l = l1 ++ l2.
Proof.
  unfold mbind, outcome_mbind, outcome_bind.
  destruct m as [a l1|f]; [|done].
  destruct (k a) as [b' l2|f] eqn:Hk; [|done].
  intros [= -> <-]. by exists a, l1, l2.
Qed.

Lemma at_index_done_inv {A} (v : list A) i x l :
  at_index (F:=F) v i = Done x l -> l = [] /\ 0 <= i /\ v !! Z.to_nat i = Some x.
Proof.
  unfold at_index. destruct (Z.ltb_spec i 0); [done|].
  destruct (v !! Z.to_nat i) as [y|]; [|done].
  intros [= -> <-]. done.
Qed.

Lemma at_index_in_range {A} (v : list A) i :
  0 <= i < vector_size v ->
  exists x, at_index (F:=F) v i = Done x [] /\ v !! Z.to_nat i = Some x.
Proof.
  intros [H0 Hlt]. unfold at_index, vector_size in *.
  destruct (Z.ltb_spec i 0); [lia|].
  destruct (lookup_lt_is_Some_2 v (Z.to_nat i)) as [x Hx]; [lia|].
  exists x. by rewrite Hx.
Qed.

Lemma at_index_out_of_range {A} (v : list A) i :
  vector_size v <= i -> at_index (F:=F) v i = Stuck OutOfRange.
Proof.
  intros Hge. unfold at_index, vector_size in *.
  destruct (Z.ltb_spec i 0); [done|].
  rewrite lookup_ge_None_2; [done|lia].
Qed.
End OutcomeFacts.

(** ** The recursions inside a segment's window *)

Section Recursions.
Context {F V : Type} `{FloatingOps F} `{InterpolationOps F V}.
Implicit Types (c : GenericBSplineCommon (F:=F) (V:=V)) (s i : Z) (d : nat) (t : F).

Lemma knotAt_in_range c i :
  0 <= i < vector_size (knots c) ->
  exists k, at_index (F:=F) (knots c) i = Done k [] /\ knotAt c i = Some k.
Proof.
  intros Hi. destruct (at_index_in_range (F:=F) (knots c) i Hi) as (k & Hk & Hl).
  exists k. split; [done|]. unfold knotAt.
  destruct (Z.ltb_spec i 0); [lia|done].
Qed.

Lemma positionAt_in_range c i :
  0 <= i < vector_size (positions c) ->
  exists p, at_index (F:=F) (positions c) i = Done p [] /\ positionAt c i = Some p.
Proof.
  intros Hi. destruct (at_index_in_range (F:=F) (positions c) i Hi) as (k & Hk & Hl).
  exists k. split; [done|]. unfold positionAt.
  destruct (Z.ltb_spec i 0); [lia|done].
Qed.

Lemma covering_nil c s : dividesByCoveringSpans c s [].
Proof. constructor. Qed.

Lemma covering_app c s l1 l2 :
  dividesByCoveringSpans c s l1 -> dividesByCoveringSpans c s l2 ->
  dividesByCoveringSpans c s (l1 ++ l2).
Proof. unfold dividesByCoveringSpans. rewrite Forall_app. tauto. Qed.

Lemma covering_call c s e :
  match e with EvDivide _ => False | _ => True end ->
  dividesByCoveringSpans c s [e].
Proof. intros He. constructor; [|constructor]. by destruct e. Qed.

Lemma covering_divide c s den :
  coveringSpan c s den -> dividesByCoveringSpans c s [EvDivide den].
Proof. intros Hc. constructor; [done|constructor]. Qed.

(** The knots a call at index [i] and degree [d > 0] reads, and the span
    it divides by. *)
Lemma window_knots c s d i :
  wellFormed c -> validSegment c s ->
  1 <= Z.of_nat d <= splineDegree c ->
  s + Z.of_nat d <= i <= s + splineDegree c ->
  exists kLow kHigh,
    at_index (F:=F) (knots c) (to_size_t (i - 1)) = Done kLow []
    /\ at_index (F:=F) (knots c) (to_size_t (i + splineDegree c - Z.of_nat d)) = Done kHigh []
    /\ knotAt c (i - 1) = Some kLow
    /\ knotAt c (i + splineDegree c - Z.of_nat d) = Some kHigh
    /\ coveringSpan c s (f_sub kHigh kLow)
    /\ to_size_t (i - 1) = i - 1.
Proof.
  intros (HD & HP & HK & HM) [Hs0 Hs1] Hd Hi.
  assert (Hlo : to_size_t (i - 1) = i - 1) by (apply to_size_t_id; lia).
  assert (Hhi : to_size_t (i + splineDegree c - Z.of_nat d) = i + splineDegree c - Z.of_nat d)
    by (apply to_size_t_id; lia).
  rewrite Hlo, Hhi.
  destruct (knotAt_in_range c (i - 1)) as (kLow & HaL & HkL); [lia|].
  destruct (knotAt_in_range c (i + splineDegree c - Z.of_nat d)) as (kHigh & HaH & HkH); [lia|].
  exists kLow, kHigh. repeat split; try done.
  exists (i - 1), (i + splineDegree c - Z.of_nat d), kLow, kHigh.
  repeat split; try done; lia.
Qed.

Lemma computeDeboor_rec_window c s t :
  wellFormed c -> validSegment c s ->
  forall d i,
    Z.of_nat d <= splineDegree c ->
    s + Z.of_nat d <= i <= s + splineDegree c ->
    exists v log,
      computeDeboor_rec c d i t = Done v log
      /\ positionRecursion c d i t = Some v
      /\ dividesByCoveringSpans c s log.
Proof.
  intros Hwf Hs. induction d as [|d IH]; intros i Hd Hi.
  - destruct Hwf as (HD & HP & HK & HM). destruct Hs as [Hs0 Hs1].
    destruct (positionAt_in_range c i) as (p & Ha & Hp); [lia|].
    exists p, ([EvDeboor i 0] ++ []). split; [|split].
    + cbn [computeDeboor_rec]. eapply bind_done; [reflexivity|exact Ha].
    + exact Hp.
    + apply covering_app; [by apply covering_call|apply covering_nil].
  - destruct (window_knots c s (S d) i Hwf Hs) as
      (kLow & kHigh & HaL & HaH & HkL & HkH & Hcov & Hlo); [lia|lia|].
    destruct (IH (i - 1)) as (vl & ll & Hl & Hsl & Hcl); [lia|lia|].
    destruct (IH i) as (vr & lr & Hr & Hsr & Hcr); [lia|lia|].
    eexists _, _. split; [|split].
    + cbn [computeDeboor_rec].
      eapply bind_done; [reflexivity|].
      eapply bind_done; [exact HaL|].
      eapply bind_done; [exact HaH|].
      eapply bind_done; [reflexivity|].
      rewrite Hlo.
      eapply bind_done; [exact Hl|].
      eapply bind_done; [exact Hr|].
      reflexivity.
    + cbn [positionRecursion]. rewrite HkL, HkH. cbn.
      rewrite Hsl, Hsr. reflexivity.
    + repeat apply covering_app; try apply covering_nil; try done.
      * by apply covering_call.
      * by apply covering_divide.
Qed.

Lemma computeDeboorDerivative_rec_window c s t :
  wellFormed c -> validSegment c s ->
  forall d i level,
    Z.of_nat d <= splineDegree c ->
    s + Z.of_nat d <= i <= s + splineDegree c ->
    exists v log,
      computeDeboorDerivative_rec c d i t level = Done v log
      /\ (1 <= level -> derivativeRecursion c d i t level = Some v)
      /\ dividesByCoveringSpans c s log.
Proof.
  intros Hwf Hs. induction d as [|d IH]; intros i level Hd Hi.
  - exists v_default, ([EvDerivative i 0 level] ++ []). split; [|split].
    + cbn [computeDeboorDerivative_rec]. eapply bind_done; reflexivity.
    + reflexivity.
    + apply covering_app; [by apply covering_call|apply covering_nil].
  - destruct (window_knots c s (S d) i Hwf Hs) as
      (kLow & kHigh & HaL & HaH & HkL & HkH & Hcov & Hlo); [lia|lia|].
    destruct (Z.leb_spec level 1) as [Hlevel|Hlevel].
    + destruct (computeDeboor_rec_window c s t Hwf Hs d i)
        as (vh & lh & Hh & Hsh & Hch); [lia|lia|].
      destruct (computeDeboor_rec_window c s t Hwf Hs d (i - 1))
        as (vl & ll & Hl & Hsl & Hcl); [lia|lia|].
      eexists _, _. split; [|split].
      * cbn [computeDeboorDerivative_rec].
        eapply bind_done; [reflexivity|].
        eapply bind_done; [exact HaH|].
        eapply bind_done; [exact HaL|].
        eapply bind_done; [reflexivity|].
        destruct (Z.leb_spec level 1); [|lia]. rewrite Hlo.
        eapply bind_done; [exact Hh|].
        eapply bind_done; [exact Hl|].
        reflexivity.
      * intros Hone. assert (level = 1) as -> by lia.
        cbn [derivativeRecursion]. rewrite HkL, HkH. cbn.
        rewrite Hsh, Hsl. reflexivity.
      * repeat apply covering_app; try apply covering_nil; try done.
        -- by apply covering_call.
        -- by apply covering_divide.
    + destruct (IH i (level - 1)) as (vh & lh & Hh & Hsh & Hch); [lia|lia|].
      destruct (IH (i - 1) (level - 1)) as (vl & ll & Hl & Hsl & Hcl); [lia|lia|].
      eexists _, _. split; [|split].
      * cbn [computeDeboorDerivative_rec].
        eapply bind_done; [reflexivity|].
        eapply bind_done; [exact HaH|].
        eapply bind_done; [exact HaL|].
        eapply bind_done; [reflexivity|].
        destruct (Z.leb_spec level 1); [lia|]. rewrite Hlo.
        eapply bind_done; [exact Hh|].
        eapply bind_done; [exact Hl|].
        reflexivity.
      * intros _. cbn [derivativeRecursion]. rewrite HkL, HkH. cbn.
        destruct (Z.eqb_spec level 1); [lia|].
        destruct (Z.gtb_spec level 1); [|lia].
        rewrite Hsh, Hsl by lia. reflexivity.
      * repeat apply covering_app; try apply covering_nil; try done.
        -- by apply covering_call.
        -- by apply covering_divide.
Qed.

(** A call of positive degree divides by its own span first. *)
Lemma computeDeboor_rec_divides c d i t v log :
  computeDeboor_rec c (S d) i t = Done v log ->
  exists kLow kHigh,
    at_index (F:=F) (knots c) (to_size_t (i - 1)) = Done kLow []
    /\ at_index (F:=F) (knots c) (to_size_t (i + splineDegree c - Z.of_nat (S d)))
         = Done kHigh []
    /\ In (EvDivide (f_sub kHigh kLow)) log.
Proof.
  cbn [computeDeboor_rec]. intros Hrun.
  apply bind_done_inv in Hrun as (? & l0 & l1 & _ & Hrun & ->).
  apply bind_done_inv in Hrun as (kLow & l2 & l3 & HaL & Hrun & ->).
  apply bind_done_inv in Hrun as (kHigh & l4 & l5 & HaH & Hrun & ->).
  apply bind_done_inv in Hrun as (alpha & l6 & l7 & Hdiv & _ & ->).
  injection Hdiv as _ <-.
  destruct (at_index_done_inv _ _ _ _ HaL) as (-> & _).
  destruct (at_index_done_inv _ _ _ _ HaH) as (-> & _).
  exists kLow, kHigh. repeat split; try done.
  apply in_or_app; right. cbn. auto.
Qed.

Lemma computeDeboorDerivative_rec_divides c d i t level v log :
  computeDeboorDerivative_rec c (S d) i t level = Done v log ->
  exists kLow kHigh,
    at_index (F:=F) (knots c) (to_size_t (i - 1)) = Done kLow []
    /\ at_index (F:=F) (knots c) (to_size_t (i + splineDegree c - Z.of_nat (S d)))
         = Done kHigh []
    /\ In (EvDivide (f_sub kHigh kLow)) log.
Proof.
  cbn [computeDeboorDerivative_rec]. intros Hrun.
  apply bind_done_inv in Hrun as (? & l0 & l1 & _ & Hrun & ->).
  apply bind_done_inv in Hrun as (kHigh & l2 & l3 & HaH & Hrun & ->).
  apply bind_done_inv in Hrun as (kLow & l4 & l5 & HaL & Hrun & ->).
  apply bind_done_inv in Hrun as (m & l6 & l7 & Hdiv & _ & ->).
  injection Hdiv as _ <-.
  destruct (at_index_done_inv _ _ _ _ HaL) as (-> & _).
  destruct (at_index_done_inv _ _ _ _ HaH) as (-> & _).
  exists kLow, kHigh. repeat split; try done.
  apply in_or_app; right. cbn. auto.
Qed.

(** Past the spline's degree the derivative recursion meets its base case
    on every branch, and finite positive multipliers keep the default
    value. *)
Lemma computeDeboorDerivative_rec_beyond `{!FloatingLaws F V} c s t :
  wellFormed c -> validSegment c s -> regularMultipliers c s ->
  forall d i level,
    Z.of_nat d <= splineDegree c ->
    s + Z.of_nat d <= i <= s + splineDegree c ->
    Z.of_nat d < level ->
    exists log, computeDeboorDerivative_rec c d i t level = Done v_default log.
Proof.
  intros Hwf Hs Hreg. induction d as [|d IH]; intros i level Hd Hi Hlevel.
  - eexists. cbn [computeDeboorDerivative_rec]. eapply bind_done; reflexivity.
  - destruct (window_knots c s (S d) i Hwf Hs) as
      (kLow & kHigh & HaL & HaH & HkL & HkH & Hcov & Hlo); [lia|lia|].
    destruct (IH i (level - 1)) as (lh & Hh); [lia|lia|lia|].
    destruct (IH (i - 1) (level - 1)) as (ll & Hl); [lia|lia|lia|].
    destruct (Hreg i (Z.of_nat (S d)) (f_div (f_of_int (Z.of_nat (S d))) (f_sub kHigh kLow)))
      as [Hfin Hpos]; [lia|lia| |].
    { unfold multiplierAt. rewrite HkH, HkL. reflexivity. }
    eexists. cbn [computeDeboorDerivative_rec].
    eapply bind_done; [reflexivity|].
    eapply bind_done; [exact HaH|].
    eapply bind_done; [exact HaL|].
    eapply bind_done; [reflexivity|].
    destruct (Z.leb_spec level 1); [lia|]. rewrite Hlo.
    eapply bind_done; [exact Hh|].
    eapply bind_done; [exact Hl|].
    rewrite v_sub_default, v_scale_left_default by done. reflexivity.
Qed.

End Recursions.

(** ** The segment locator and the queries *)

Section Queries.
Context {F V : Type} `{FloatingOps F} `{InterpolationOps F V}.
Variable indexForT : list F -> F -> Z.
Implicit Types (c : GenericBSplineCommon (F:=F) (V:=V)) (s i : Z) (t : F).

Lemma wellFormed_segmentCount c :
  wellFormed c ->
  segmentCount c = vector_size (positions c) - splineDegree c /\ 1 <= segmentCount c.
Proof.
  intros (HD & HP & HK & HM). unfold segmentCount.
  rewrite to_size_t_id by lia. lia.
Qed.

Lemma segmentForT_bounds c t :
  1 <= segmentCount c -> 0 <= segmentForT indexForT c t <= segmentCount c - 1.
Proof.
  intros Hcount. unfold segmentForT.
  assert (Hrange := to_size_t_range (vector_size (positions c) - splineDegree c)).
  fold (segmentCount c) in Hrange.
  rewrite (to_size_t_id (segmentCount c - 1)) by lia.
  destruct (f_ltb t (f_of_int 0)); [lia|].
  pose proof (to_size_t_range (indexForT (knots c) t - (splineDegree c - 1))).
  destruct (Z.gtb_spec (to_size_t (indexForT (knots c) t - (splineDegree c - 1)))
              (segmentCount c - 1)); lia.
Qed.

Lemma segmentForT_valid c t :
  wellFormed c -> validSegment c (segmentForT indexForT c t).
Proof.
  intros Hwf. destruct (wellFormed_segmentCount c Hwf) as [Heq Hone].
  pose proof (segmentForT_bounds c t Hone). unfold validSegment. lia.
Qed.

(** The knot index a query starts its recursions at. *)
Lemma query_knotIndex c s :
  wellFormed c -> validSegment c s ->
  to_size_t (to_size_t (s + (splineDegree c - 1)) + 1) = s + splineDegree c.
Proof.
  intros (HD & HP & HK & HM) [Hs0 Hs1].
  rewrite (to_size_t_id (s + (splineDegree c - 1))) by lia.
  rewrite to_size_t_id by lia. lia.
Qed.

Lemma computeDeboor_top c i t :
  0 <= splineDegree c ->
  computeDeboor c i (splineDegree c) t
  = computeDeboor_rec c (Z.to_nat (splineDegree c)) i t.
Proof. intros HD. unfold computeDeboor. destruct (Z.ltb_spec (splineDegree c) 0); [lia|done]. Qed.

Lemma computeDeboorDerivative_top c i t level :
  0 <= splineDegree c ->
  computeDeboorDerivative c i (splineDegree c) t level
  = computeDeboorDerivative_rec c (Z.to_nat (splineDegree c)) i t level.
Proof.
  intros HD. unfold computeDeboorDerivative.
  destruct (Z.ltb_spec (splineDegree c) 0); [lia|done].
Qed.

(** What the position recursion of segment [s] does, from its top. *)
Lemma position_of_segment c s t :
  wellFormed c -> validSegment c s ->
  exists v log,
    computeDeboor c (s + splineDegree c) (splineDegree c) t = Done v log
    /\ positionRecursion c (Z.to_nat (splineDegree c)) (s + splineDegree c) t = Some v
    /\ dividesByCoveringSpans c s log.
Proof.
  intros Hwf Hs. rewrite computeDeboor_top by (destruct Hwf; lia).
  apply computeDeboor_rec_window; try done; destruct Hwf; lia.
Qed.

(** What the derivative recursion of segment [s] does, from its top. *)
Lemma derivative_of_segment c s t level :
  wellFormed c -> validSegment c s ->
  exists v log,
    computeDeboorDerivative c (s + splineDegree c) (splineDegree c) t level = Done v log
    /\ (1 <= level ->
        derivativeRecursion c (Z.to_nat (splineDegree c)) (s + splineDegree c) t level
        = Some v)
    /\ dividesByCoveringSpans c s log.
Proof.
  intros Hwf Hs. rewrite computeDeboorDerivative_top by (destruct Hwf; lia).
  apply computeDeboorDerivative_rec_window; try done; destruct Hwf; lia.
Qed.







(** C10: on every well-formed curve and for every parameter the four
    queries succeed and agree on what they share: the position of
    getTangent, getCurvature and getWiggle is the result of getPosition,
    the tangent of getCurvature and getWiggle is the tangent of
    getTangent, and the curvature of getWiggle is the curvature of
    getCurvature. *)
Theorem queries_agree c t :
  wellFormed c ->
  exists p tangent curvature wiggle,
    value (getPosition indexForT c t) = Some p
    /\ value (getTangent indexForT c t)
       = Some {| pt_position := p; pt_tangent := tangent |}
    /\ value (getCurvature indexForT c t)
       = Some {| ptc_position := p; ptc_tangent := tangent; ptc_curvature := curvature |}
    /\ value (getWiggle indexForT c t)
       = Some {| ptcw_position := p; ptcw_tangent := tangent;
                 ptcw_curvature := curvature; ptcw_wiggle := wiggle |}.
Proof.
  intros Hwf. pose proof (segmentForT_valid c t Hwf) as Hs.
  destruct (position_of_segment c _ t Hwf Hs) as (p & lp & Hp & _).
  destruct (derivative_of_segment c _ t 1 Hwf Hs) as (d1 & l1 & H1 & _).
  destruct (derivative_of_segment c _ t 2 Hwf Hs) as (d2 & l2 & H2 & _).
  destruct (derivative_of_segment c _ t 3 Hwf Hs) as (d3 & l3 & H3 & _).
  exists p, d1, d2, d3.
  unfold getPosition, getTangent, getCurvature, getWiggle.
  rewrite !query_knotIndex by done.
  split; [by rewrite Hp|]. repeat split.
  - erewrite bind_done; [reflexivity|exact Hp|].
    erewrite bind_done; [reflexivity|exact H1|reflexivity].
  - erewrite bind_done; [reflexivity|exact Hp|].
    erewrite bind_done; [reflexivity|exact H1|].
    erewrite bind_done; [reflexivity|exact H2|reflexivity].
  - erewrite bind_done; [reflexivity|exact Hp|].
    erewrite bind_done; [reflexivity|exact H1|].
    erewrite bind_done; [reflexivity|exact H2|].
    erewrite bind_done; [reflexivity|exact H3|reflexivity].
Qed.

Lemma dividesByZero_intro (log : list (event F)) den :
  In (EvDivide den) log -> isZero den = true -> dividesByZero log = true.
Proof.
  intros Hin Hz. unfold dividesByZero. apply existsb_exists.
  exists (EvDivide den). by split.
Qed.

Lemma dividesByZero_covering c s log :
  dividesByCoveringSpans c s log ->
  (forall den, coveringSpan c s den -> isZero den = false) ->
  dividesByZero log = false.
Proof.
  intros Hcov Hnz. unfold dividesByZero.
  apply not_true_is_false. intros Hex.
  apply existsb_exists in Hex as (e & Hin & He).
  unfold dividesByCoveringSpans in Hcov. rewrite Forall_forall in Hcov.
  specialize (Hcov e). destruct e as [den| | |]; try done.
  rewrite Hnz in He; [done|]. apply Hcov. by apply list_elem_of_In.
Qed.

(** The segment's own span is defined, and both recursions divide by it
    at their top. *)
Lemma segment_divisions c s t :
  wellFormed c -> validSegment c s ->
  exists span,
    segmentSpan c s = Some span
    /\ (forall v log,
          computeDeboor c (s + splineDegree c) (splineDegree c) t = Done v log ->
          In (EvDivide span) log)
    /\ (forall level v log,
          computeDeboorDerivative c (s + splineDegree c) (splineDegree c) t level
          = Done v log ->
          In (EvDivide span) log).
Proof.
  intros Hwf Hs. pose proof Hwf as (HD & _).
  destruct (Z.to_nat (splineDegree c)) as [|n] eqn:Hn; [lia|].
  assert (HDn : Z.of_nat (S n) = splineDegree c) by lia.
  destruct (window_knots c s (S n) (s + splineDegree c) Hwf Hs)
    as (kLow & kHigh & HaL & HaH & HkL & HkH & _ & _); [lia|lia|].
  exists (f_sub kHigh kLow). split; [|split].
  - unfold segmentSpan.
    replace (s + splineDegree c + splineDegree c - Z.of_nat (S n))
      with (s + splineDegree c) in HkH by lia.
    rewrite HkH. cbn. rewrite HkL. reflexivity.
  - intros v log Hrun. rewrite computeDeboor_top, Hn in Hrun by lia.
    apply computeDeboor_rec_divides in Hrun as (kLow' & kHigh' & HaL' & HaH' & Hin).
    rewrite HaL in HaL'. rewrite HaH in HaH'.
    injection HaL' as <-. injection HaH' as <-. exact Hin.
  - intros level v log Hrun. rewrite computeDeboorDerivative_top, Hn in Hrun by lia.
    apply computeDeboorDerivative_rec_divides in Hrun
      as (kLow' & kHigh' & HaL' & HaH' & Hin).
    rewrite HaL in HaL'. rewrite HaH in HaH'.
    injection HaL' as <-. injection HaH' as <-. exact Hin.
Qed.

Lemma queryLogs_unguarded c t :
  wellFormed c ->
  exists span,
    segmentSpan c (segmentForT indexForT c t) = Some span
    /\ Forall (fun log =>
                 In (EvDivide span) log
                 /\ dividesByCoveringSpans c (segmentForT indexForT c t) log)
              (queryLogs indexForT c t).
Proof.
  intros Hwf. pose proof (segmentForT_valid c t Hwf) as Hs.
  destruct (segment_divisions c _ t Hwf Hs) as (span & Hspan & Hpos & _).
  destruct (position_of_segment c _ t Hwf Hs) as (p & lp & Hp & _ & Hcp).
  destruct (derivative_of_segment c _ t 1 Hwf Hs) as (d1 & l1 & H1 & _ & Hc1).
  destruct (derivative_of_segment c _ t 2 Hwf Hs) as (d2 & l2 & H2 & _ & Hc2).
  destruct (derivative_of_segment c _ t 3 Hwf Hs) as (d3 & l3 & H3 & _ & Hc3).
  specialize (Hpos p lp Hp).
  exists span. split; [done|].
  unfold queryLogs, getPosition, getTangent, getCurvature, getWiggle.
  rewrite !query_knotIndex by done.
  repeat apply Forall_cons_2; [| | | |apply Forall_nil_2].
  - rewrite Hp. by split.
  - erewrite bind_done; [|exact Hp|];
      [|erewrite bind_done; [reflexivity|exact H1|reflexivity]].
    cbn [log_of]. split; [apply in_or_app; by left|].
    repeat apply covering_app; try done; apply covering_nil.
  - erewrite bind_done; [|exact Hp|];
      [|erewrite bind_done; [reflexivity|exact H1|];
        erewrite bind_done; [reflexivity|exact H2|reflexivity]].
    cbn [log_of]. split; [apply in_or_app; by left|].
    repeat apply covering_app; try done; apply covering_nil.
  - erewrite bind_done; [|exact Hp|];
      [|erewrite bind_done; [reflexivity|exact H1|];
        erewrite bind_done; [reflexivity|exact H2|];
        erewrite bind_done; [reflexivity|exact H3|reflexivity]].
    cbn [log_of]. split; [apply in_or_app; by left|].
    repeat apply covering_app; try done; apply covering_nil.
Qed.

(** C4 (amended): the recursions have no guard. On every well-formed
    curve and for every parameter, each of getPosition, getTangent,
    getCurvature and getWiggle divides by the knot span of the segment it
    is routed to, whatever that span is, and every denominator of its
    recursions is a knot span covering that segment. So the query divides
    by zero when the routed segment has zero length, and no division by
    zero occurs when no span covering the segment is zero. *)
Theorem queries_divide_unguarded c t :
  wellFormed c ->
  exists span,
    segmentSpan c (segmentForT indexForT c t) = Some span
    /\ Forall (fun log =>
                 In (EvDivide span) log
                 /\ dividesByCoveringSpans c (segmentForT indexForT c t) log
                 /\ (isZero span = true -> dividesByZero log = true)
                 /\ ((forall den,
                        coveringSpan c (segmentForT indexForT c t) den ->
                        isZero den = false) ->
                     dividesByZero log = false))
              (queryLogs indexForT c t).
Proof.
  intros Hwf. destruct (queryLogs_unguarded c t Hwf) as (span & Hspan & Hlogs).
  exists span. split; [done|].
  eapply Forall_impl; [exact Hlogs|].
  intros log [Hin Hcov]. repeat split; try done.
  - by apply dividesByZero_intro.
  - by apply dividesByZero_covering.
Qed.

(** C5 (amended): on every well-formed curve, for every segment, every
    parameter and every derivative level above the spline's degree, the
    derivative recursion returns without a fault, and it returns the
    default (zero) value when every multiplier of the segment is finite
    and positive. *)
Theorem derivative_beyond_degree `{!FloatingLaws F V} c s t level :
  wellFormed c -> validSegment c s ->
  splineDegree c < level ->
  (exists v log,
     computeDeboorDerivative c (s + splineDegree c) (splineDegree c) t level
     = Done v log)
  /\ (regularMultipliers c s ->
      exists log,
        computeDeboorDerivative c (s + splineDegree c) (splineDegree c) t level
        = Done v_default log).
Proof.
  intros Hwf Hs Hlevel. pose proof Hwf as (HD & _). split.
  - destruct (derivative_of_segment c s t level Hwf Hs) as (v & log & Hrun & _).
    by exists v, log.
  - intros Hreg. rewrite computeDeboorDerivative_top by lia.
    apply (computeDeboorDerivative_rec_beyond c s t Hwf Hs Hreg); lia.
Qed.

Variable quadrature : (F -> outcome F F) -> F -> F -> outcome F F.

(** C6: on every well-formed curve, for every segment and every interval,
    segmentLength returns 0 at once, with nothing evaluated (no
    quadrature, no tangent, no division), when the segment's knot span
    knots[innerIndex+1] - knots[innerIndex] is zero; when the span is
    positive it returns the quadrature over the interval of the magnitude
    of the segment's first derivative. *)
Theorem segmentLength_degenerate `{!FloatingLaws F V} c s a b :
  wellFormed c -> validSegment c s ->
  exists span,
    segmentSpan c s = Some span
    /\ (isZero span = true ->
        segmentLength quadrature c s a b = Done (f_of_int 0) [])
    /\ (f_ltb (f_of_int 0) span = true ->
        segmentLength quadrature c s a b
        = (_ ← record (EvQuadrature a b);
           quadrature
             (fun t =>
                tangent ← computeDeboorDerivative c (s + splineDegree c)
                            (splineDegree c) t 1;
                mret (v_length tangent))
             a b)).
Proof.
  intros Hwf Hs. pose proof Hwf as (HD & HP & HK & HM). pose proof Hs as [Hs0 Hs1].
  destruct (knotAt_in_range c (s + splineDegree c)) as (kHigh & HaH & HkH); [lia|].
  destruct (knotAt_in_range c (s + splineDegree c - 1)) as (kLow & HaL & HkL); [lia|].
  exists (f_sub kHigh kLow). split; [|split].
  - unfold segmentSpan. rewrite HkH. cbn. by rewrite HkL.
  - intros Hzero. unfold segmentLength.
    rewrite (to_size_t_id (s + splineDegree c - 1)) by lia.
    replace (s + splineDegree c - 1 + 1) with (s + splineDegree c) by lia.
    rewrite (to_size_t_id (s + splineDegree c)) by lia.
    rewrite HaH, bind_pure, HaL, bind_pure.
    by rewrite (f_zero_not_pos _ Hzero).
  - intros Hpos. unfold segmentLength, segmentFunction.
    rewrite (to_size_t_id (s + splineDegree c - 1)) by lia.
    replace (s + splineDegree c - 1 + 1) with (s + splineDegree c) by lia.
    rewrite (to_size_t_id (s + splineDegree c)) by lia.
    rewrite HaH, bind_pure, HaL, bind_pure.
    by rewrite Hpos.
Qed.

End Queries.

(** ** The constructors *)

Section Constructors.
Context {F V : Type} `{FloatingOps F} `{InterpolationOps F V}.
Variable outerTValues loopingTValues : list V -> F -> Z -> gmap Z F.
Implicit Types (points : list V) (degree : Z).

Lemma to_int_id z : 0 <= z < 2 ^ 31 -> to_int z = z.
Proof. intros Hz. unfold to_int. rewrite Z.mod_small; lia. Qed.

Lemma set_index_in_range {A} (v : list A) i x :
  0 <= i < vector_size v ->
  set_index (F:=F) v i x = Done (<[Z.to_nat i := x]> v) [].
Proof.
  intros [Hlow Hhigh]. unfold set_index.
  destruct (Z.leb_spec 0 i); [|lia]. destruct (Z.ltb_spec i (vector_size v)); [|lia].
  reflexivity.
Qed.

Lemma vector_size_insert {A} (v : list A) n x :
  vector_size (<[n := x]> v) = vector_size v.
Proof. unfold vector_size. by rewrite length_insert. Qed.

Lemma copyKnots_done (indexToT : gmap Z F) padding indices :
  forall knots0,
    vector_size knots0 < size_t_modulus ->
    (forall i, i ∈ indices -> 0 <= i + padding < vector_size knots0) ->
    exists knots1,
      copyKnots indexToT padding indices knots0 = Done knots1 []
      /\ vector_size knots1 = vector_size knots0.
Proof.
  induction indices as [|i indices IH]; intros knots0 Hmax Hin.
  - by exists knots0.
  - assert (Hi : 0 <= i + padding < vector_size knots0) by (apply Hin; left).
    destruct (IH (<[Z.to_nat (i + padding) := default (f_of_int 0) (indexToT !! i)]> knots0))
      as (knots1 & Hrun & Hlen).
    { by rewrite vector_size_insert. }
    { intros j Hj. rewrite vector_size_insert. apply Hin. by right. }
    exists knots1. split; [|by rewrite Hlen, vector_size_insert].
    cbn [copyKnots]. rewrite to_size_t_id by lia.
    rewrite set_index_in_range by done. rewrite bind_pure. exact Hrun.
Qed.

Lemma copyTo_done (src : list V) :
  forall dst pos,
    0 <= pos -> pos + vector_size src <= vector_size dst ->
    exists dst',
      copyTo (F:=F) src dst pos = Done dst' []
      /\ vector_size dst' = vector_size dst.
Proof.
  induction src as [|x src IH]; intros dst pos Hpos Hfit.
  - by exists dst.
  - assert (Hsrc : vector_size (x :: src) = vector_size src + 1)
      by (unfold vector_size; cbn [length]; lia).
    destruct (IH (<[Z.to_nat pos := x]> dst) (pos + 1)) as (dst' & Hrun & Hlen).
    { lia. }
    { rewrite vector_size_insert. lia. }
    exists dst'. split; [|by rewrite Hlen, vector_size_insert].
    cbn [copyTo]. rewrite set_index_in_range by (unfold vector_size in *; lia).
    rewrite bind_pure. exact Hrun.
Qed.

Lemma copyN_done (src dst : list V) n pos :
  n <= vector_size src -> 0 <= pos -> pos + n <= vector_size dst ->
  exists dst',
    copyN (F:=F) src n dst pos = Done dst' []
    /\ vector_size dst' = vector_size dst.
Proof.
  intros Hn Hpos Hfit. unfold copyN.
  destruct (Z.leb_spec n 0); [by exists dst|].
  destruct (Z.gtb_spec n (vector_size src)); [lia|].
  apply copyTo_done; [done|].
  unfold vector_size in *. rewrite length_take. lia.
Qed.

Lemma vector_size_replicate {A} n (x : A) : vector_size (replicate n x) = Z.of_nat n.
Proof. unfold vector_size. by rewrite length_replicate. Qed.

(** The open constructor on enough points. *)
Lemma GenericBSpline_built ndebug points degree :
  0 < degree < vector_size points -> vector_size points < 2 ^ 31 ->
  Z.of_nat (size (outerTValues points (f_of_int 0) (degree - 1)))
  = vector_size points + 2 * (degree - 1) ->
  exists c,
    GenericBSpline outerTValues ndebug points degree = Done c []
    /\ positions c = points /\ splineDegree c = degree
    /\ vector_size (knots c) = vector_size points + 2 * (degree - 1).
Proof.
  intros Hd Hn Hmap. unfold GenericBSpline, assertPasses.
  rewrite (to_size_t_id degree) by (unfold size_t_modulus; lia).
  destruct (Z.gtb_spec (vector_size points) degree); [|lia]. cbn [orb].
  rewrite to_int_id by (unfold vector_size in *; lia).
  destruct (copyKnots_done (outerTValues points (f_of_int 0) (degree - 1)) (degree - 1)
              (seqZ (- (degree - 1)) (vector_size points + (degree - 1) - - (degree - 1)))
              (replicate (size (outerTValues points (f_of_int 0) (degree - 1))) (f_of_int 0)))
    as (knots1 & Hrun & Hlen).
  { rewrite vector_size_replicate, Hmap. unfold size_t_modulus. lia. }
  { intros i Hi. apply elem_of_seqZ in Hi.
    rewrite vector_size_replicate, Hmap. lia. }
  rewrite Hrun, bind_pure. eexists. split; [reflexivity|].
  cbn. rewrite Hlen, vector_size_replicate, Hmap. done.
Qed.

(** The looping constructor on enough points. *)
Lemma LoopingGenericBSpline_built ndebug points degree :
  0 < degree < vector_size points -> vector_size points < 2 ^ 31 ->
  Z.of_nat (size (loopingTValues points (f_of_int 0) (degree - 1)))
  = vector_size points + 2 * (degree - 1) + 1 ->
  exists c,
    LoopingGenericBSpline loopingTValues ndebug points degree = Done c []
    /\ vector_size (positions c) = vector_size points + degree
    /\ splineDegree c = degree
    /\ vector_size (knots c) = vector_size points + 2 * (degree - 1) + 1.
Proof.
  intros Hd Hn Hmap. unfold LoopingGenericBSpline, assertPasses.
  rewrite (to_size_t_id degree) by (unfold size_t_modulus; lia).
  destruct (Z.gtb_spec (vector_size points) degree); [|lia]. cbn [orb].
  rewrite to_int_id by (unfold vector_size in *; lia).
  rewrite (to_size_t_id (vector_size points + degree)) by (unfold size_t_modulus; lia).
  rewrite (to_size_t_id (vector_size points - 1)) by (unfold size_t_modulus; lia).
  destruct (at_index_in_range (F:=F) points (vector_size points - 1)) as (last & Hlast & _);
    [lia|].
  rewrite Hlast, bind_pure.
  set (positions0 := replicate (Z.to_nat (vector_size points + degree)) (v_default : V)).
  assert (Hsize0 : vector_size positions0 = vector_size points + degree).
  { unfold positions0. rewrite vector_size_replicate. lia. }
  rewrite set_index_in_range by lia. rewrite bind_pure.
  destruct (copyTo_done points (<[Z.to_nat 0 := last]> positions0) 1)
    as (positions2 & Hcopy & H2); [lia|rewrite vector_size_insert; lia|].
  rewrite vector_size_insert in H2.
  rewrite Hcopy, bind_pure.
  destruct (copyN_done points positions2 (degree - 1) (vector_size positions2 - (degree - 1)))
    as (positions3 & HcopyN & H3); [lia|lia|lia|].
  rewrite HcopyN, bind_pure.
  destruct (copyKnots_done (loopingTValues points (f_of_int 0) (degree - 1)) (degree - 1)
              (seqZ (- (degree - 1)) (vector_size points + (degree - 1) + 1 - - (degree - 1)))
              (replicate (size (loopingTValues points (f_of_int 0) (degree - 1))) (f_of_int 0)))
    as (knots1 & Hrun & Hlen).
  { rewrite vector_size_replicate, Hmap. unfold size_t_modulus. lia. }
  { intros i Hi. apply elem_of_seqZ in Hi.
    rewrite vector_size_replicate, Hmap. lia. }
  rewrite Hrun, bind_pure. eexists. split; [reflexivity|].
  cbn. rewrite Hlen, vector_size_replicate, Hmap. repeat split; lia.
Qed.

(** C8: for every degree d > 0 and every point sequence of size above d,
    the constructors succeed, and segmentCount() is points.size() - d on
    the open curve and points.size() on the looping curve. *)
Theorem segmentCount_of_constructed ndebug points degree :
  0 < degree < vector_size points -> vector_size points < 2 ^ 31 ->
  Z.of_nat (size (outerTValues points (f_of_int 0) (degree - 1)))
  = vector_size points + 2 * (degree - 1) ->
  Z.of_nat (size (loopingTValues points (f_of_int 0) (degree - 1)))
  = vector_size points + 2 * (degree - 1) + 1 ->
  (exists c,
     GenericBSpline outerTValues ndebug points degree = Done c []
     /\ segmentCount c = vector_size points - degree)
  /\ (exists c,
       LoopingGenericBSpline loopingTValues ndebug points degree = Done c []
       /\ segmentCount c = vector_size points).
Proof.
  intros Hd Hn Houter Hlooping. split.
  - destruct (GenericBSpline_built ndebug points degree Hd Hn Houter) as (c & Hc & Hp & HD & _).
    exists c. split; [done|]. unfold segmentCount. rewrite Hp, HD.
    apply to_size_t_id. unfold size_t_modulus. lia.
  - destruct (LoopingGenericBSpline_built ndebug points degree Hd Hn Hlooping)
      as (c & Hc & Hp & HD & _).
    exists c. split; [done|]. unfold segmentCount. rewrite Hp, HD.
    rewrite to_size_t_id by (unfold size_t_modulus; lia). lia.
Qed.

(** The open constructor in a build with [NDEBUG]: no comparison of the
    size with the degree is made, and a curve is returned for any size. *)
Lemma GenericBSpline_unchecked points degree :
  0 < degree < 2 ^ 31 -> vector_size points < 2 ^ 31 ->
  Z.of_nat (size (outerTValues points (f_of_int 0) (degree - 1)))
  = vector_size points + 2 * (degree - 1) ->
  exists c,
    GenericBSpline outerTValues true points degree = Done c []
    /\ positions c = points /\ splineDegree c = degree.
Proof.
  intros Hd Hn Hmap. unfold GenericBSpline, assertPasses.
  rewrite orb_true_r.
  rewrite to_int_id by (unfold vector_size in *; lia).
  destruct (copyKnots_done (outerTValues points (f_of_int 0) (degree - 1)) (degree - 1)
              (seqZ (- (degree - 1)) (vector_size points + (degree - 1) - - (degree - 1)))
              (replicate (size (outerTValues points (f_of_int 0) (degree - 1))) (f_of_int 0)))
    as (knots1 & Hrun & Hlen).
  { rewrite vector_size_replicate, Hmap. unfold size_t_modulus. lia. }
  { intros i Hi. apply elem_of_seqZ in Hi.
    rewrite vector_size_replicate, Hmap. lia. }
  rewrite Hrun, bind_pure. eexists. split; [reflexivity|]. done.
Qed.

(** C9 (amended): the precondition is an [assert]. In a build with
    assertions, points.size() <= degree stops both constructors at it and no
    curve is produced. In a build with [NDEBUG] the assertion is absent:
    with points.size() <= degree GenericBSpline returns a curve all the
    same, which is not well-formed and whose segmentCount() is
    points.size() - degree modulo 2^64. In both builds a positive degree
    below points.size() makes both constructors succeed with a well-formed
    curve (one whose segment count is defined and at least 1). *)
Theorem construction_precondition points degree :
  - 2 ^ 31 <= degree < 2 ^ 31 ->
  (vector_size points <= degree ->
   GenericBSpline outerTValues false points degree = Stuck AssertionFailed
   /\ LoopingGenericBSpline loopingTValues false points degree = Stuck AssertionFailed)
  /\ (vector_size points <= degree -> 0 < degree -> vector_size points < 2 ^ 31 ->
      Z.of_nat (size (outerTValues points (f_of_int 0) (degree - 1)))
      = vector_size points + 2 * (degree - 1) ->
      exists c,
        GenericBSpline outerTValues true points degree = Done c []
        /\ segmentCount c = to_size_t (vector_size points - degree)
        /\ ~ wellFormed c)
  /\ (forall ndebug,
        0 < degree < vector_size points -> vector_size points < 2 ^ 31 ->
        Z.of_nat (size (outerTValues points (f_of_int 0) (degree - 1)))
        = vector_size points + 2 * (degree - 1) ->
        Z.of_nat (size (loopingTValues points (f_of_int 0) (degree - 1)))
        = vector_size points + 2 * (degree - 1) + 1 ->
        (exists c,
           GenericBSpline outerTValues ndebug points degree = Done c [] /\ wellFormed c)
        /\ (exists c,
              LoopingGenericBSpline loopingTValues ndebug points degree = Done c []
              /\ wellFormed c)).
Proof.
  intros Hint. split; [|split].
  - intros Hfew. assert (0 <= degree) by (unfold vector_size in Hfew; lia).
    unfold GenericBSpline, LoopingGenericBSpline, assertPasses.
    rewrite (to_size_t_id degree) by (unfold size_t_modulus; lia).
    destruct (Z.gtb_spec (vector_size points) degree); [lia|done].
  - intros Hfew Hd Hn Houter.
    destruct (GenericBSpline_unchecked points degree ltac:(lia) Hn Houter)
      as (c & Hc & Hp & HD).
    exists c. split; [done|]. split.
    + unfold segmentCount. by rewrite Hp, HD.
    + intros (_ & Hmore & _). rewrite Hp, HD in Hmore. lia.
  - intros ndebug Hd Hn Houter Hlooping. split.
    + destruct (GenericBSpline_built ndebug points degree Hd Hn Houter)
        as (c & Hc & Hp & HD & HK).
      exists c. split; [done|]. unfold wellFormed. rewrite Hp, HD, HK.
      unfold size_t_modulus. lia.
    + destruct (LoopingGenericBSpline_built ndebug points degree Hd Hn Hlooping)
        as (c & Hc & Hp & HD & HK).
      exists c. split; [done|]. unfold wellFormed. rewrite Hp, HD, HK.
      unfold size_t_modulus. lia.
Qed.

End Constructors.

(** ** Binary32 and Vector2 satisfy the laws *)

#[global] Instance binary32_laws : FloatingLaws Binary32.float Vector2.t.
Proof.
  split.
  - intros x. destruct x as [s|s| |s m e]; cbn; try done; by destruct s.
  - reflexivity.
  - intros s Hfin Hpos. destruct s as [s|s| |s m e]; cbn in *; try done.
    by destruct s.
Qed.

(** ** Concrete runs *)

Ltac solve_shape :=
  unfold wellFormed, validSegment; repeat split; vm_compute;
  first [reflexivity | discriminate].


Lemma fiveCurve_wellFormed : wellFormed Sample.fiveCurve.
Proof. solve_shape. Defined.

Lemma degenerate_wellFormed : wellFormed Sample.degenerate.
Proof. solve_shape. Defined.

Lemma fiveCurve_regular : regularMultipliers Sample.fiveCurve 0.
Proof.
  intros i d m Hd Hi Hm. cbn in Hd, Hi.
  assert (Hcases : (d = 1 \/ d = 2 \/ d = 3) /\ (i = 1 \/ i = 2 \/ i = 3)) by lia.
  destruct Hcases as [[-> | [-> | ->]] [-> | [-> | ->]]]; try lia;
    vm_compute in Hm; injection Hm as <-; vm_compute; by split.
Defined.





(** A division by zero: the well-formed curve with the knots [0, 0] has a
    single segment of zero length; getPosition(0) is routed to it and
    divides by its span, which is zero. *)
Lemma division_by_zero_counterexample :
  wellFormed Sample.degenerate
  /\ segmentSpan Sample.degenerate (Sample.segmentForT Sample.degenerate (Binary32.of_int 0))
     = Some (Binary32.of_int 0)
  /\ dividesByZero (log_of (Sample.getPosition Sample.degenerate (Binary32.of_int 0))) = true.
Proof. split; [exact degenerate_wellFormed|]. split; vm_compute; reflexivity. Qed.

(** The divisions of the four queries on the five-point curve at the
    parameter 1. *)
Lemma queries_divide_unguarded_witness :
  wellFormed Sample.fiveCurve
  /\ exists span,
       segmentSpan Sample.fiveCurve (Sample.segmentForT Sample.fiveCurve (Binary32.of_int 1)) = Some span
       /\ Forall (fun log =>
                    In (EvDivide span) log
                    /\ dividesByCoveringSpans Sample.fiveCurve
                         (Sample.segmentForT Sample.fiveCurve (Binary32.of_int 1)) log
                    /\ (isZero span = true -> dividesByZero log = true)
                    /\ ((forall den,
                           coveringSpan Sample.fiveCurve
                             (Sample.segmentForT Sample.fiveCurve (Binary32.of_int 1)) den ->
                           isZero den = false) ->
                        dividesByZero log = false))
                 (queryLogs getIndexForT Sample.fiveCurve (Binary32.of_int 1)).
Proof.
  split; [exact fiveCurve_wellFormed|].
  exact (queries_divide_unguarded getIndexForT Sample.fiveCurve (Binary32.of_int 1)
           fiveCurve_wellFormed).
Defined.

(** A derivative past the degree that is not zero: on the well-formed
    degree-1 curve with the knots [0, 0], the second derivative (level 2,
    above the degree) that getCurvature(0) returns is (NaN, NaN), its
    multiplier being 1/0. *)
Lemma derivative_beyond_degree_counterexample :
  wellFormed Sample.degenerate
  /\ splineDegree Sample.degenerate < 2
  /\ value (computeDeboorDerivative Sample.degenerate 1 1 (Binary32.of_int 0) 2)
     = Some (Vector2.mk S754_nan S754_nan)
  /\ ptc_curvature <$> value (Sample.getCurvature Sample.degenerate (Binary32.of_int 0))
     = Some (Vector2.mk S754_nan S754_nan)
  /\ Vector2.mk S754_nan S754_nan <> v_default.
Proof.
  split; [exact degenerate_wellFormed|]. split; [reflexivity|].
  split; [vm_compute; reflexivity|]. split; [vm_compute; reflexivity|].
  vm_compute. discriminate.
Qed.

(** The fourth derivative of the cubic five-point curve is the zero vector. *)
Lemma derivative_beyond_degree_witness :
  wellFormed Sample.fiveCurve /\ validSegment Sample.fiveCurve 0 /\ 3 < 4
  /\ regularMultipliers Sample.fiveCurve 0
  /\ exists log,
       computeDeboorDerivative Sample.fiveCurve 3 3 (Binary32.of_int 1) 4
       = Done v_default log.
Proof.
  split; [exact fiveCurve_wellFormed|]. split; [solve_shape|]. split; [lia|].
  split; [exact fiveCurve_regular|].
  refine (proj2 (derivative_beyond_degree Sample.fiveCurve 0 (Binary32.of_int 1) 4
                   fiveCurve_wellFormed _ _) fiveCurve_regular);
    [solve_shape|cbn; lia].
Defined.

(** The length of the zero-length segment of the two-knot curve, and of the
    first segment of the five-point curve. *)
Lemma segmentLength_degenerate_witness :
  (wellFormed Sample.degenerate /\ validSegment Sample.degenerate 0
   /\ segmentSpan Sample.degenerate 0 = Some (Binary32.of_int 0)
   /\ Sample.segmentLength Sample.degenerate 0 (Binary32.of_int 0) (Binary32.of_int 1)
      = Done (Binary32.of_int 0) [])
  /\ (wellFormed Sample.fiveCurve /\ validSegment Sample.fiveCurve 0
      /\ segmentSpan Sample.fiveCurve 0 = Some (Binary32.of_int 1)
      /\ Sample.segmentLength Sample.fiveCurve 0 (Binary32.of_int 0) (Binary32.of_int 1)
         = (_ ← record (EvQuadrature (Binary32.of_int 0) (Binary32.of_int 1));
            gaussLegendreQuadratureIntegral Sample.onePoint
              (fun t =>
                 tangent ← computeDeboorDerivative Sample.fiveCurve 3 3 t 1;
                 mret (v_length tangent))
              (Binary32.of_int 0) (Binary32.of_int 1))).
Proof.
  split.
  - split; [exact degenerate_wellFormed|]. split; [solve_shape|]. split; [reflexivity|].
    destruct (segmentLength_degenerate (gaussLegendreQuadratureIntegral Sample.onePoint)
                Sample.degenerate 0 (Binary32.of_int 0) (Binary32.of_int 1)
                degenerate_wellFormed ltac:(solve_shape))
      as (span & Hspan & Hzero & _).
    apply Hzero. vm_compute in Hspan. injection Hspan as <-. reflexivity.
  - split; [exact fiveCurve_wellFormed|]. split; [solve_shape|]. split; [reflexivity|].
    destruct (segmentLength_degenerate (gaussLegendreQuadratureIntegral Sample.onePoint)
                Sample.fiveCurve 0 (Binary32.of_int 0) (Binary32.of_int 1)
                fiveCurve_wellFormed ltac:(solve_shape))
      as (span & Hspan & _ & Hpositive).
    apply Hpositive. vm_compute in Hspan. injection Hspan as <-. reflexivity.
Defined.


(** The five points at degree 3: two segments when open, five when looping. *)
Lemma segmentCount_of_constructed_witness :
  0 < 3 < vector_size Sample.fivePoints
  /\ (exists c,
        Sample.GenericBSpline Sample.fivePoints 3 = Done c []
        /\ segmentCount c = vector_size Sample.fivePoints - 3)
  /\ (exists c,
        Sample.LoopingGenericBSpline Sample.fivePoints 3 = Done c []
        /\ segmentCount c = vector_size Sample.fivePoints).
Proof.
  split; [unfold vector_size; cbn; lia|].
  apply (segmentCount_of_constructed computeTValuesWithOuterPadding computeLoopingTValues
           false Sample.fivePoints 3);
    [unfold vector_size; cbn; lia|unfold vector_size; cbn; lia
    |vm_compute; reflexivity|vm_compute; reflexivity].
Defined.

(** Without the assertion a curve with no segment is returned: in a build
    with [NDEBUG] the open constructor takes the five points at degree 5 and
    returns a curve whose segmentCount() is 0. *)
Lemma construction_unchecked_counterexample :
  vector_size Sample.fivePoints <= 5
  /\ exists c,
       Sample.GenericBSplineNDEBUG Sample.fivePoints 5 = Done c []
       /\ positions c = Sample.fivePoints
       /\ splineDegree c = 5
       /\ segmentCount c = 0.
Proof.
  split; [vm_compute; discriminate|].
  eexists. split; [vm_compute; reflexivity|]. repeat split.
Qed.

(** The five points: with assertions degree 5 is refused; with [NDEBUG]
    degree 5 gives a curve with no segment; degree 3 is built. *)
Lemma construction_precondition_witness :
  (- 2 ^ 31 <= 5 < 2 ^ 31
   /\ vector_size Sample.fivePoints <= 5
   /\ Sample.GenericBSpline Sample.fivePoints 5 = Stuck AssertionFailed
   /\ Sample.LoopingGenericBSpline Sample.fivePoints 5 = Stuck AssertionFailed
   /\ exists c,
        Sample.GenericBSplineNDEBUG Sample.fivePoints 5 = Done c []
        /\ segmentCount c = to_size_t (vector_size Sample.fivePoints - 5)
        /\ ~ wellFormed c)
  /\ (- 2 ^ 31 <= 3 < 2 ^ 31
      /\ 0 < 3 < vector_size Sample.fivePoints
      /\ (exists c,
            Sample.GenericBSpline Sample.fivePoints 3 = Done c [] /\ wellFormed c)
      /\ (exists c,
            Sample.LoopingGenericBSpline Sample.fivePoints 3 = Done c []
            /\ wellFormed c)).
Proof.
  split.
  - split; [lia|]. split; [unfold vector_size; cbn; lia|].
    destruct (construction_precondition computeTValuesWithOuterPadding computeLoopingTValues
                Sample.fivePoints 5 ltac:(lia)) as (Hassert & Hrelease & _).
    destruct (Hassert ltac:(unfold vector_size; cbn; lia)) as [Hopen Hlooping].
    split; [exact Hopen|]. split; [exact Hlooping|].
    exact (Hrelease ltac:(unfold vector_size; cbn; lia) ltac:(lia)
             ltac:(unfold vector_size; cbn; lia) ltac:(vm_compute; reflexivity)).
  - split; [lia|]. split; [unfold vector_size; cbn; lia|].
    exact (proj2 (proj2 (construction_precondition computeTValuesWithOuterPadding
                           computeLoopingTValues Sample.fivePoints 3 ltac:(lia)))
             false ltac:(unfold vector_size; cbn; lia) ltac:(unfold vector_size; cbn; lia)
             ltac:(vm_compute; reflexivity) ltac:(vm_compute; reflexivity)).
Defined.

(** The four queries on the five-point curve at the parameter 1. *)
Lemma queries_agree_witness :
  wellFormed Sample.fiveCurve
  /\ exists p tangent curvature wiggle,
       value (Sample.getPosition Sample.fiveCurve (Binary32.of_int 1)) = Some p
       /\ value (Sample.getTangent Sample.fiveCurve (Binary32.of_int 1))
          = Some {| pt_position := p; pt_tangent := tangent |}
       /\ value (Sample.getCurvature Sample.fiveCurve (Binary32.of_int 1))
          = Some {| ptc_position := p; ptc_tangent := tangent; ptc_curvature := curvature |}
       /\ value (Sample.getWiggle Sample.fiveCurve (Binary32.of_int 1))
          = Some {| ptcw_position := p; ptcw_tangent := tangent;
                    ptcw_curvature := curvature; ptcw_wiggle := wiggle |}.
Proof.
  split; [exact fiveCurve_wellFormed|].
  exact (queries_agree getIndexForT Sample.fiveCurve (Binary32.of_int 1) fiveCurve_wellFormed).
Defined.

(** * Further properties of the code *)

(** ** What the constructors store *)

Section Stored.
Context {F V : Type} `{FloatingOps F} `{InterpolationOps F V}.
Variable outerTValues loopingTValues : list V -> F -> Z -> gmap Z F.
Implicit Types (points : list V) (degree : Z).

(** After the copy loop, position [j] holds the table's entry [j - padding]
    when the loop visited that index, and is untouched otherwise. *)
Lemma copyKnots_lookup (indexToT : gmap Z F) padding indices :
  forall knots0 knots1,
    vector_size knots0 < size_t_modulus ->
    (forall i, i ∈ indices -> 0 <= i + padding < vector_size knots0) ->
    copyKnots indexToT padding indices knots0 = Done knots1 [] ->
    forall j, 0 <= j ->
      knots1 !! Z.to_nat j
      = if decide (j - padding ∈ indices)
        then Some (default (f_of_int 0) (indexToT !! (j - padding)))
        else knots0 !! Z.to_nat j.
Proof.
  induction indices as [|i indices IH]; intros knots0 knots1 Hmax Hin Hrun j Hj.
  - injection Hrun as <-. destruct (decide (j - padding ∈ [])) as [Hel|_]; [|done].
    by apply elem_of_nil in Hel.
  - assert (Hi : 0 <= i + padding < vector_size knots0) by (apply Hin; left).
    cbn [copyKnots] in Hrun. rewrite to_size_t_id in Hrun by lia.
    rewrite set_index_in_range, bind_pure in Hrun by done.
    rewrite (IH _ _ ltac:(by rewrite vector_size_insert)
               ltac:(intros k Hk; rewrite vector_size_insert; apply Hin; by right)
               Hrun j Hj).
    destruct (decide (j - padding ∈ indices)) as [Hrest|Hrest].
    + rewrite decide_True; [done|by right].
    + destruct (decide (j = i + padding)) as [->|Hne].
      * rewrite decide_True by (replace (i + padding - padding) with i by lia; left).
        replace (i + padding - padding) with i by lia.
        apply list_lookup_insert_eq. unfold vector_size in Hi. lia.
      * rewrite decide_False.
        -- apply list_lookup_insert_ne. lia.
        -- intros [Heq|Hel]%elem_of_cons; [lia|done].
Qed.

(** X1: the open constructor keeps the points as they are and copies the
    knot table into a vector shifted by the padding: position [j] of the
    knots holds the table's entry [j - (degree-1)], so that segmentT(s) is
    the table's entry [s], the parameter of point [s]. *)
Theorem GenericBSpline_stores_table ndebug points degree :
  0 < degree < vector_size points -> vector_size points < 2 ^ 31 ->
  Z.of_nat (size (outerTValues points (f_of_int 0) (degree - 1)))
  = vector_size points + 2 * (degree - 1) ->
  exists c,
    GenericBSpline outerTValues ndebug points degree = Done c []
    /\ positions c = points
    /\ splineDegree c = degree
    /\ (forall j, 0 <= j < vector_size points + 2 * (degree - 1) ->
        knotAt c j
        = Some (default (f_of_int 0)
                  (outerTValues points (f_of_int 0) (degree - 1) !! (j - (degree - 1)))))
    /\ (forall s, 0 <= s < vector_size points + (degree - 1) ->
        segmentT c s
        = Done (default (f_of_int 0)
                  (outerTValues points (f_of_int 0) (degree - 1) !! s)) []).
Proof.
  intros Hd Hn Hmap.
  set (table := outerTValues points (f_of_int 0) (degree - 1)) in *.
  set (knots0 := replicate (size table) (f_of_int 0 : F)).
  assert (Hsize0 : vector_size knots0 = vector_size points + 2 * (degree - 1)).
  { unfold knots0. by rewrite vector_size_replicate. }
  assert (Hmax : vector_size knots0 < size_t_modulus)
    by (rewrite Hsize0; unfold size_t_modulus; lia).
  assert (Hin : forall i,
             i ∈ seqZ (- (degree - 1)) (vector_size points + (degree - 1) - - (degree - 1)) ->
             0 <= i + (degree - 1) < vector_size knots0).
  { intros i Hi. apply elem_of_seqZ in Hi. lia. }
  destruct (copyKnots_done table (degree - 1) _ knots0 Hmax Hin) as (knots1 & Hrun & Hlen).
  pose proof (copyKnots_lookup table (degree - 1) _ knots0 knots1 Hmax Hin Hrun) as Hlook.
  assert (Hknot : forall j, 0 <= j < vector_size points + 2 * (degree - 1) ->
             knots1 !! Z.to_nat j = Some (default (f_of_int 0) (table !! (j - (degree - 1))))).
  { intros j Hj. rewrite Hlook by lia. rewrite decide_True; [done|].
    apply elem_of_seqZ. lia. }
  exists {| positions := points; knots := knots1; splineDegree := degree |}.
  split; [|split; [done|split; [done|split]]].
  - unfold GenericBSpline, assertPasses.
    rewrite (to_size_t_id degree) by (unfold size_t_modulus; lia).
    destruct (Z.gtb_spec (vector_size points) degree); [|lia]. cbn [orb].
    rewrite to_int_id by (unfold vector_size in *; lia).
    fold table. fold knots0. by rewrite Hrun, bind_pure.
  - intros j Hj. unfold knotAt. cbn [knots].
    destruct (Z.ltb_spec j 0); [lia|]. by apply Hknot.
  - intros s Hs. unfold segmentT. cbn [knots splineDegree].
    rewrite to_size_t_id by (unfold size_t_modulus; lia).
    unfold at_index. destruct (Z.ltb_spec (s + degree - 1) 0); [lia|].
    rewrite Hknot by lia. by replace (s + degree - 1 - (degree - 1)) with s by lia.
Qed.

(** What [std::copy] leaves in the destination. *)
Lemma copyTo_content (src : list V) :
  forall dst dst' (pos : nat),
    (pos + length src <= length dst)%nat ->
    copyTo (F:=F) src dst (Z.of_nat pos) = Done dst' [] ->
    dst' = take pos dst ++ src ++ drop (pos + length src) dst.
Proof.
  induction src as [|x src IH]; intros dst dst' pos Hfit Hrun.
  - injection Hrun as <-. cbn. rewrite Nat.add_0_r. by rewrite take_drop.
  - cbn [copyTo length] in *.
    rewrite set_index_in_range, bind_pure in Hrun by (unfold vector_size; lia).
    rewrite Nat2Z.id in Hrun.
    replace (Z.of_nat pos + 1) with (Z.of_nat (S pos)) in Hrun by lia.
    apply IH in Hrun; [|rewrite length_insert; lia].
    rewrite Hrun.
    rewrite (take_S_r _ pos x) by (apply list_lookup_insert_eq; lia).
    rewrite take_insert_ge by lia.
    rewrite drop_insert_lt by lia.
    rewrite <- app_assoc. cbn.
    by replace (S (pos + length src))%nat with (pos + S (length src))%nat by lia.
Qed.

(** X2: the looping constructor stores the points rotated by one: the last
    point first, then all the points, then the first degree-1 points again. *)
Theorem LoopingGenericBSpline_rotates ndebug points degree :
  0 < degree < vector_size points -> vector_size points < 2 ^ 31 ->
  Z.of_nat (size (loopingTValues points (f_of_int 0) (degree - 1)))
  = vector_size points + 2 * (degree - 1) + 1 ->
  exists c lastPoint,
    LoopingGenericBSpline loopingTValues ndebug points degree = Done c []
    /\ points !! (length points - 1)%nat = Some lastPoint
    /\ positions c = lastPoint :: points ++ take (Z.to_nat (degree - 1)) points.
Proof.
  intros Hd Hn Hmap. unfold LoopingGenericBSpline, assertPasses.
  rewrite (to_size_t_id degree) by (unfold size_t_modulus; lia).
  destruct (Z.gtb_spec (vector_size points) degree); [|lia]. cbn [orb].
  rewrite to_int_id by (unfold vector_size in *; lia).
  rewrite (to_size_t_id (vector_size points + degree)) by (unfold size_t_modulus; lia).
  rewrite (to_size_t_id (vector_size points - 1)) by (unfold size_t_modulus; lia).
  destruct (at_index_in_range (F:=F) points (vector_size points - 1))
    as (lastPoint & Hlast & Hlook); [lia|].
  rewrite Hlast, bind_pure.
  set (positions0 := replicate (Z.to_nat (vector_size points + degree)) (v_default : V)).
  assert (Hsize0 : vector_size positions0 = vector_size points + degree).
  { unfold positions0. rewrite vector_size_replicate. lia. }
  rewrite set_index_in_range by lia. rewrite bind_pure.
  destruct (copyTo_done (F:=F) points (<[Z.to_nat 0 := lastPoint]> positions0) 1)
    as (positions2 & Hcopy & H2); [lia|rewrite vector_size_insert; lia|].
  rewrite vector_size_insert in H2.
  rewrite Hcopy, bind_pure.
  destruct (copyN_done (F:=F) points positions2 (degree - 1) (vector_size positions2 - (degree - 1)))
    as (positions3 & HcopyN & H3); [lia|lia|lia|].
  rewrite HcopyN, bind_pure.
  destruct (copyKnots_done (loopingTValues points (f_of_int 0) (degree - 1)) (degree - 1)
              (seqZ (- (degree - 1)) (vector_size points + (degree - 1) + 1 - - (degree - 1)))
              (replicate (size (loopingTValues points (f_of_int 0) (degree - 1))) (f_of_int 0)))
    as (knots1 & Hrun & Hlen).
  { rewrite vector_size_replicate, Hmap. unfold size_t_modulus. lia. }
  { intros i Hi. apply elem_of_seqZ in Hi.
    rewrite vector_size_replicate, Hmap. lia. }
  rewrite Hrun, bind_pure. eexists _, lastPoint. split; [reflexivity|].
  split.
  { rewrite <- Hlook. f_equal. unfold vector_size. lia. }
  cbn [positions].
  (* the contents after std::copy *)
  change 1 with (Z.of_nat 1) in Hcopy.
  apply copyTo_content in Hcopy;
    [|rewrite length_insert; unfold vector_size in Hsize0; lia].
  assert (Hpos2 : positions2
                  = lastPoint :: points ++ replicate (Z.to_nat (degree - 1)) v_default).
  { rewrite Hcopy. unfold positions0.
    replace (Z.to_nat (vector_size points + degree))
      with (S (length points + Z.to_nat (degree - 1)))%nat by (unfold vector_size; lia).
    change (Z.to_nat 0) with 0%nat. cbn.
    by rewrite take_0, drop_replicate_add. }
  (* the contents after std::copy_n *)
  unfold copyN in HcopyN.
  destruct (Z.leb_spec (degree - 1) 0) as [Hone|Hmore].
  - injection HcopyN as <-. rewrite Hpos2.
    replace (Z.to_nat (degree - 1)) with 0%nat by lia. done.
  - destruct (Z.gtb_spec (degree - 1) (vector_size points)); [lia|].
    replace (vector_size positions2 - (degree - 1))
      with (Z.of_nat (S (length points))) in HcopyN by (unfold vector_size in *; lia).
    apply copyTo_content in HcopyN;
      [|rewrite length_take; unfold vector_size in *; lia].
    rewrite HcopyN, Hpos2.
    rewrite length_take.
    replace (Z.to_nat (degree - 1) `min` length points)%nat
      with (Z.to_nat (degree - 1)) by (unfold vector_size in *; lia).
    cbn [take]. f_equal.
    rewrite take_app_length.
    rewrite drop_ge; [by rewrite app_nil_r|].
    cbn [length]. rewrite length_app, length_replicate. lia.
Qed.

(** X3: the looping constructor copies its knot table like the open one,
    with the one extra trailing entry: position [j] of the knots holds the
    table's entry [j - (degree-1)], and segmentT(s) is the table's entry [s]. *)
Theorem LoopingGenericBSpline_stores_table ndebug points degree :
  0 < degree < vector_size points -> vector_size points < 2 ^ 31 ->
  Z.of_nat (size (loopingTValues points (f_of_int 0) (degree - 1)))
  = vector_size points + 2 * (degree - 1) + 1 ->
  exists c,
    LoopingGenericBSpline loopingTValues ndebug points degree = Done c []
    /\ splineDegree c = degree
    /\ (forall j, 0 <= j < vector_size points + 2 * (degree - 1) + 1 ->
        knotAt c j
        = Some (default (f_of_int 0)
                  (loopingTValues points (f_of_int 0) (degree - 1) !! (j - (degree - 1)))))
    /\ (forall s, 0 <= s <= vector_size points + (degree - 1) ->
        segmentT c s
        = Done (default (f_of_int 0)
                  (loopingTValues points (f_of_int 0) (degree - 1) !! s)) []).
Proof.
  intros Hd Hn Hmap.
  set (table := loopingTValues points (f_of_int 0) (degree - 1)) in *.
  set (knots0 := replicate (size table) (f_of_int 0 : F)).
  assert (Hsize0 : vector_size knots0 = vector_size points + 2 * (degree - 1) + 1).
  { unfold knots0. by rewrite vector_size_replicate. }
  assert (Hmax : vector_size knots0 < size_t_modulus)
    by (rewrite Hsize0; unfold size_t_modulus; lia).
  assert (Hin : forall i,
             i ∈ seqZ (- (degree - 1))
                   (vector_size points + (degree - 1) + 1 - - (degree - 1)) ->
             0 <= i + (degree - 1) < vector_size knots0).
  { intros i Hi. apply elem_of_seqZ in Hi. lia. }
  destruct (copyKnots_done table (degree - 1) _ knots0 Hmax Hin) as (knots1 & Hrun & Hlen).
  pose proof (copyKnots_lookup table (degree - 1) _ knots0 knots1 Hmax Hin Hrun) as Hlook.
  assert (Hknot : forall j, 0 <= j < vector_size points + 2 * (degree - 1) + 1 ->
             knots1 !! Z.to_nat j = Some (default (f_of_int 0) (table !! (j - (degree - 1))))).
  { intros j Hj. rewrite Hlook by lia. rewrite decide_True; [done|].
    apply elem_of_seqZ. lia. }
  unfold LoopingGenericBSpline, assertPasses.
  rewrite (to_size_t_id degree) by (unfold size_t_modulus; lia).
  destruct (Z.gtb_spec (vector_size points) degree); [|lia]. cbn [orb].
  rewrite to_int_id by (unfold vector_size in *; lia).
  rewrite (to_size_t_id (vector_size points + degree)) by (unfold size_t_modulus; lia).
  rewrite (to_size_t_id (vector_size points - 1)) by (unfold size_t_modulus; lia).
  destruct (at_index_in_range (F:=F) points (vector_size points - 1))
    as (lastPoint & Hlast & _); [lia|].
  rewrite Hlast, bind_pure.
  set (positions0 := replicate (Z.to_nat (vector_size points + degree)) (v_default : V)).
  assert (Hsizep : vector_size positions0 = vector_size points + degree).
  { unfold positions0. rewrite vector_size_replicate. lia. }
  rewrite set_index_in_range by lia. rewrite bind_pure.
  destruct (copyTo_done (F:=F) points (<[Z.to_nat 0 := lastPoint]> positions0) 1)
    as (positions2 & Hcopy & H2); [lia|rewrite vector_size_insert; lia|].
  rewrite vector_size_insert in H2.
  rewrite Hcopy, bind_pure.
  destruct (copyN_done (F:=F) points positions2 (degree - 1) (vector_size positions2 - (degree - 1)))
    as (positions3 & HcopyN & H3); [lia|lia|lia|].
  rewrite HcopyN, bind_pure.
  fold table. fold knots0. rewrite Hrun, bind_pure.
  eexists. split; [reflexivity|]. split; [done|]. split.
  - intros j Hj. unfold knotAt. cbn [knots].
    destruct (Z.ltb_spec j 0); [lia|]. by apply Hknot.
  - intros s Hs. unfold segmentT. cbn [knots splineDegree].
    rewrite to_size_t_id by (unfold size_t_modulus; lia).
    unfold at_index. destruct (Z.ltb_spec (s + degree - 1) 0); [lia|].
    rewrite Hknot by lia. by replace (s + degree - 1 - (degree - 1)) with s by lia.
Qed.

End Stored.

(** ** The recursions: what they read, what they cost *)

Section Reads.
Context {F V : Type} `{FloatingOps F} `{InterpolationOps F V}.
Variable indexForT : list F -> F -> Z.
Implicit Types (c : GenericBSplineCommon (F:=F) (V:=V)) (s i : Z) (d : nat) (t : F).

Lemma at_index_ext {A} (v v' : list A) i :
  0 <= i -> v !! Z.to_nat i = v' !! Z.to_nat i ->
  at_index (F:=F) v i = at_index v' i.
Proof. intros Hi Heq. unfold at_index. by rewrite Heq. Qed.

Lemma computeDeboor_rec_local c c' s t :
  0 <= s -> s + 2 * splineDegree c < size_t_modulus -> sameWindow c c' s ->
  forall d i,
    Z.of_nat d <= splineDegree c ->
    s + Z.of_nat d <= i <= s + splineDegree c ->
    computeDeboor_rec c d i t = computeDeboor_rec c' d i t.
Proof.
  intros Hs Hmax (HD & Hpos & Hknots). induction d as [|d IH]; intros i Hd Hi.
  - cbn [computeDeboor_rec]. rewrite (at_index_ext (positions c) (positions c') i);
      [done|lia|apply Hpos; lia].
  - cbn [computeDeboor_rec]. rewrite <- HD.
    rewrite (to_size_t_id (i - 1)) by lia.
    rewrite (to_size_t_id (i + splineDegree c - Z.of_nat (S d))) by lia.
    rewrite (at_index_ext (knots c) (knots c') (i - 1)) by (try apply Hknots; lia).
    rewrite (at_index_ext (knots c) (knots c')
               (i + splineDegree c - Z.of_nat (S d))) by (try apply Hknots; lia).
    rewrite (IH (i - 1)) by lia. rewrite (IH i) by lia. reflexivity.
Qed.

Lemma computeDeboorDerivative_rec_local c c' s t :
  0 <= s -> s + 2 * splineDegree c < size_t_modulus -> sameWindow c c' s ->
  forall d i level,
    Z.of_nat d <= splineDegree c ->
    s + Z.of_nat d <= i <= s + splineDegree c ->
    computeDeboorDerivative_rec c d i t level
    = computeDeboorDerivative_rec c' d i t level.
Proof.
  intros Hs Hmax Hsame. pose proof Hsame as (HD & Hpos & Hknots).
  induction d as [|d IH]; intros i level Hd Hi.
  - reflexivity.
  - cbn [computeDeboorDerivative_rec]. rewrite <- HD.
    rewrite (to_size_t_id (i - 1)) by lia.
    rewrite (to_size_t_id (i + splineDegree c - Z.of_nat (S d))) by lia.
    rewrite (at_index_ext (knots c) (knots c') (i - 1)) by (try apply Hknots; lia).
    rewrite (at_index_ext (knots c) (knots c')
               (i + splineDegree c - Z.of_nat (S d))) by (try apply Hknots; lia).
    rewrite (computeDeboor_rec_local c c' s t Hs Hmax Hsame d i) by lia.
    rewrite (computeDeboor_rec_local c c' s t Hs Hmax Hsame d (i - 1)) by lia.
    rewrite (IH i (level - 1)) by lia. rewrite (IH (i - 1) (level - 1)) by lia.
    reflexivity.
Qed.

(** X4: local control. If two curves have the same knots, degree and number
    of positions, and the same positions [s .. s+degree] where [s] is the
    segment a parameter is routed to, then the four queries return the same
    at that parameter: a control point outside the window of the segment has
    no influence on it. *)
Theorem queries_local c c' t :
  1 <= splineDegree c ->
  knots c = knots c' -> splineDegree c = splineDegree c' ->
  length (positions c) = length (positions c') ->
  segmentForT indexForT c t + 2 * splineDegree c < size_t_modulus ->
  (forall j,
     segmentForT indexForT c t <= j <= segmentForT indexForT c t + splineDegree c ->
     positions c !! Z.to_nat j = positions c' !! Z.to_nat j) ->
  getPosition indexForT c t = getPosition indexForT c' t
  /\ getTangent indexForT c t = getTangent indexForT c' t
  /\ getCurvature indexForT c t = getCurvature indexForT c' t
  /\ getWiggle indexForT c t = getWiggle indexForT c' t.
Proof.
  intros HD Hknots Hdeg Hlen Hmax Hpos.
  assert (Hseg : segmentForT indexForT c' t = segmentForT indexForT c t).
  { unfold segmentForT, segmentCount, vector_size. by rewrite Hknots, Hdeg, Hlen. }
  set (s := segmentForT indexForT c t) in *.
  assert (Hs : 0 <= s).
  { unfold s, segmentForT. destruct (f_ltb t (f_of_int 0)); [lia|].
    destruct (_ >? _); apply to_size_t_range. }
  assert (Hsame : sameWindow c c' s).
  { split; [done|]. split; [done|]. intros j _. by rewrite Hknots. }
  assert (Hidx : to_size_t (to_size_t (s + (splineDegree c - 1)) + 1) = s + splineDegree c).
  { rewrite (to_size_t_id (s + (splineDegree c - 1))) by lia.
    rewrite to_size_t_id by lia. lia. }
  assert (Hp : forall i, computeDeboor c (s + splineDegree c) (splineDegree c) t
                         = computeDeboor c' (s + splineDegree c) (splineDegree c) t).
  { intros _. unfold computeDeboor. destruct (Z.ltb_spec (splineDegree c) 0); [lia|].
    apply (computeDeboor_rec_local c c' s t Hs Hmax Hsame); lia. }
  assert (Hd : forall level,
             computeDeboorDerivative c (s + splineDegree c) (splineDegree c) t level
             = computeDeboorDerivative c' (s + splineDegree c) (splineDegree c) t level).
  { intros level. unfold computeDeboorDerivative.
    destruct (Z.ltb_spec (splineDegree c) 0); [lia|].
    apply (computeDeboorDerivative_rec_local c c' s t Hs Hmax Hsame); lia. }
  unfold getPosition, getTangent, getCurvature, getWiggle.
  rewrite Hseg. fold s. rewrite <- Hdeg, !Hidx, (Hp 0), !Hd. done.
Qed.

(** Every recursion of degree [d] that returns has divided [2^d - 1] times. *)
Lemma divisionCount_app (l1 l2 : list (event F)) :
  divisionCount (l1 ++ l2) = (divisionCount l1 + divisionCount l2)%nat.
Proof.
  induction l1 as [|e l1 IH]; [done|]. destruct e; cbn; by rewrite IH.
Qed.

Lemma computeDeboor_rec_count c t :
  forall d i v log,
    computeDeboor_rec c d i t = Done v log -> S (divisionCount log) = (2 ^ d)%nat.
Proof.
  induction d as [|d IH]; intros i v log Hrun; cbn [computeDeboor_rec] in Hrun.
  - apply bind_done_inv in Hrun as (? & l0 & l1 & Hrec & Hrun & ->).
    injection Hrec as _ <-.
    apply at_index_done_inv in Hrun as (-> & _). done.
  - apply bind_done_inv in Hrun as (? & l0 & l1 & Hrec & Hrun & ->).
    injection Hrec as _ <-.
    apply bind_done_inv in Hrun as (kLow & l2 & l3 & HaL & Hrun & ->).
    apply bind_done_inv in Hrun as (kHigh & l4 & l5 & HaH & Hrun & ->).
    apply bind_done_inv in Hrun as (alpha & l6 & l7 & Hdiv & Hrun & ->).
    apply bind_done_inv in Hrun as (vl & l8 & l9 & Hl & Hrun & ->).
    apply bind_done_inv in Hrun as (vr & l10 & l11 & Hr & Hrun & ->).
    injection Hdiv as _ <-. injection Hrun as _ <-.
    apply at_index_done_inv in HaL as (-> & _).
    apply at_index_done_inv in HaH as (-> & _).
    apply IH in Hl. apply IH in Hr.
    rewrite !divisionCount_app. cbn [divisionCount app Nat.add].
    rewrite Nat.pow_succ_r'. lia.
Qed.

Lemma computeDeboorDerivative_rec_count c t :
  forall d i level v log,
    computeDeboorDerivative_rec c d i t level = Done v log ->
    S (divisionCount log) = (2 ^ d)%nat.
Proof.
  induction d as [|d IH]; intros i level v log Hrun;
    cbn [computeDeboorDerivative_rec] in Hrun.
  - apply bind_done_inv in Hrun as (? & l0 & l1 & Hrec & Hrun & ->).
    injection Hrec as _ <-. injection Hrun as _ <-. done.
  - apply bind_done_inv in Hrun as (? & l0 & l1 & Hrec & Hrun & ->).
    injection Hrec as _ <-.
    apply bind_done_inv in Hrun as (kHigh & l2 & l3 & HaH & Hrun & ->).
    apply bind_done_inv in Hrun as (kLow & l4 & l5 & HaL & Hrun & ->).
    apply bind_done_inv in Hrun as (m & l6 & l7 & Hdiv & Hrun & ->).
    injection Hdiv as _ <-.
    apply at_index_done_inv in HaL as (-> & _).
    apply at_index_done_inv in HaH as (-> & _).
    destruct (level <=? 1).
    + apply bind_done_inv in Hrun as (vh & l8 & l9 & Hh & Hrun & ->).
      apply bind_done_inv in Hrun as (vl & l10 & l11 & Hl & Hrun & ->).
      injection Hrun as _ <-.
      apply computeDeboor_rec_count in Hh. apply computeDeboor_rec_count in Hl.
      rewrite !divisionCount_app. cbn [divisionCount app Nat.add].
      rewrite Nat.pow_succ_r'. lia.
    + apply bind_done_inv in Hrun as (vh & l8 & l9 & Hh & Hrun & ->).
      apply bind_done_inv in Hrun as (vl & l10 & l11 & Hl & Hrun & ->).
      injection Hrun as _ <-.
      apply IH in Hh. apply IH in Hl.
      rewrite !divisionCount_app. cbn [divisionCount app Nat.add].
      rewrite Nat.pow_succ_r'. lia.
Qed.

End Reads.

(** ** The queries: cost, edges, and how they compose *)

Section QueryFacts.
Context {F V : Type} `{FloatingOps F} `{InterpolationOps F V}.
Variable indexForT : list F -> F -> Z.
Implicit Types (c : GenericBSplineCommon (F:=F) (V:=V)) (s i : Z) (d : nat) (t : F).

(** X5: the recursions are not memoised. On every well-formed curve a
    position costs 2^degree - 1 divisions and each derivative as many, so
    getPosition, getTangent, getCurvature and getWiggle divide 1, 2, 3 and 4
    times 2^degree - 1 times. *)
Theorem queries_division_count c t :
  wellFormed c ->
  let perRecursion := (2 ^ Z.to_nat (splineDegree c) - 1)%nat in
  divisionCount (log_of (getPosition indexForT c t)) = perRecursion
  /\ divisionCount (log_of (getTangent indexForT c t)) = (2 * perRecursion)%nat
  /\ divisionCount (log_of (getCurvature indexForT c t)) = (3 * perRecursion)%nat
  /\ divisionCount (log_of (getWiggle indexForT c t)) = (4 * perRecursion)%nat.
Proof.
  intros Hwf perRecursion. pose proof (segmentForT_valid indexForT c t Hwf) as Hs.
  pose proof Hwf as (HD & _).
  destruct (position_of_segment c _ t Hwf Hs) as (p & lp & Hp & _).
  destruct (derivative_of_segment c _ t 1 Hwf Hs) as (d1 & l1 & H1 & _).
  destruct (derivative_of_segment c _ t 2 Hwf Hs) as (d2 & l2 & H2 & _).
  destruct (derivative_of_segment c _ t 3 Hwf Hs) as (d3 & l3 & H3 & _).
  assert (Hcp : divisionCount lp = perRecursion).
  { rewrite computeDeboor_top in Hp by lia.
    apply computeDeboor_rec_count in Hp. unfold perRecursion. lia. }
  assert (Hcd : forall level v l,
             computeDeboorDerivative c (segmentForT indexForT c t + splineDegree c)
               (splineDegree c) t level = Done v l ->
             divisionCount l = perRecursion).
  { intros level v l Hrun. rewrite computeDeboorDerivative_top in Hrun by lia.
    apply computeDeboorDerivative_rec_count in Hrun. unfold perRecursion. lia. }
  apply Hcd in H1 as Hc1. apply Hcd in H2 as Hc2. apply Hcd in H3 as Hc3.
  unfold getPosition, getTangent, getCurvature, getWiggle.
  rewrite !query_knotIndex by done.
  split; [by rewrite Hp|]. repeat split.
  - erewrite bind_done; [|exact Hp|];
      [|erewrite bind_done; [reflexivity|exact H1|reflexivity]].
    cbn [log_of]. rewrite !divisionCount_app. cbn [divisionCount]. lia.
  - erewrite bind_done; [|exact Hp|];
      [|erewrite bind_done; [reflexivity|exact H1|];
        erewrite bind_done; [reflexivity|exact H2|reflexivity]].
    cbn [log_of]. rewrite !divisionCount_app. cbn [divisionCount]. lia.
  - erewrite bind_done; [|exact Hp|];
      [|erewrite bind_done; [reflexivity|exact H1|];
        erewrite bind_done; [reflexivity|exact H2|];
        erewrite bind_done; [reflexivity|exact H3|reflexivity]].
    cbn [log_of]. rewrite !divisionCount_app. cbn [divisionCount]. lia.
Qed.

(** A recursion started at an index at or past the end of the positions
    reads outside them. *)
Lemma computeDeboor_rec_past_end c t :
  forall d i, vector_size (positions c) <= i ->
    exists f, computeDeboor_rec c d i t = Stuck f.
Proof.
  induction d as [|d IH]; intros i Hi; cbn [computeDeboor_rec].
  - exists OutOfRange. eapply bind_done_stuck; [reflexivity|].
    by apply at_index_out_of_range.
  - destruct (IH i Hi) as (f & Hf).
    destruct (at_index (F:=F) (knots c) (to_size_t (i - 1))) as [kLow lL|fL] eqn:HaL;
      [|exists fL; eapply bind_done_stuck; [reflexivity|by apply bind_stuck]].
    destruct (at_index (F:=F) (knots c) (to_size_t (i + splineDegree c - Z.of_nat (S d))))
      as [kHigh lH|fH] eqn:HaH;
      [|exists fH; eapply bind_done_stuck; [reflexivity|];
        eapply bind_done_stuck; [reflexivity|by apply bind_stuck]].
    destruct (computeDeboor_rec c d (to_size_t (i - 1)) t) as [vl ll|fl] eqn:Hl.
    + exists f. eapply bind_done_stuck; [reflexivity|].
      eapply bind_done_stuck; [reflexivity|].
      eapply bind_done_stuck; [reflexivity|].
      eapply bind_done_stuck; [reflexivity|].
      eapply bind_done_stuck; [reflexivity|].
      by apply bind_stuck.
    + exists fl. eapply bind_done_stuck; [reflexivity|].
      eapply bind_done_stuck; [reflexivity|].
      eapply bind_done_stuck; [reflexivity|].
      eapply bind_done_stuck; [reflexivity|].
      by apply bind_stuck.
Qed.

Lemma to_size_t_succ z : to_size_t (to_size_t z + 1) = to_size_t (z + 1).
Proof. unfold to_size_t. by rewrite Zplus_mod_idemp_l. Qed.

(** X6: without the constructors' precondition the queries are undefined.
    On a curve with no more positions than its degree, every query whose
    routed index does not wrap around (in particular every query at a
    negative parameter, routed to segment 0) reads outside the positions. *)
Theorem queries_need_enough_positions c t :
  0 <= splineDegree c ->
  vector_size (positions c) <= splineDegree c ->
  segmentForT indexForT c t + splineDegree c < size_t_modulus ->
  value (getPosition indexForT c t) = None
  /\ value (getTangent indexForT c t) = None
  /\ value (getCurvature indexForT c t) = None
  /\ value (getWiggle indexForT c t) = None.
Proof.
  intros HD Hfew Hmax.
  assert (Hs : 0 <= segmentForT indexForT c t).
  { unfold segmentForT. destruct (f_ltb t (f_of_int 0)); [lia|].
    destruct (_ >? _); apply to_size_t_range. }
  assert (Hidx : to_size_t (to_size_t (segmentForT indexForT c t + (splineDegree c - 1)) + 1)
                 = segmentForT indexForT c t + splineDegree c).
  { rewrite to_size_t_succ.
    replace (segmentForT indexForT c t + (splineDegree c - 1) + 1)
      with (segmentForT indexForT c t + splineDegree c) by lia.
    apply to_size_t_id. lia. }
  destruct (computeDeboor_rec_past_end c t (Z.to_nat (splineDegree c))
              (segmentForT indexForT c t + splineDegree c)) as (f & Hf); [lia|].
  assert (Hp : computeDeboor c (segmentForT indexForT c t + splineDegree c)
                 (splineDegree c) t = Stuck f).
  { unfold computeDeboor. destruct (Z.ltb_spec (splineDegree c) 0); [lia|done]. }
  unfold getPosition, getTangent, getCurvature, getWiggle.
  rewrite !Hidx, Hp. done.
Qed.

(** X7: a derivative of the spline's own degree or above does not depend on
    the parameter: the recursion reaches the stored positions (or the
    default value) before it uses [globalT]. The tangent of a degree-1
    curve and the curvature of a degree-2 curve are constant on a segment. *)
Theorem top_derivative_ignores_parameter c i t t' level :
  splineDegree c <= level ->
  computeDeboorDerivative c i (splineDegree c) t level
  = computeDeboorDerivative c i (splineDegree c) t' level.
Proof.
  intros Hlevel. unfold computeDeboorDerivative.
  destruct (Z.ltb_spec (splineDegree c) 0); [done|].
  assert (Hd : Z.of_nat (Z.to_nat (splineDegree c)) <= level) by lia.
  clear Hlevel. revert i level Hd.
  induction (Z.to_nat (splineDegree c)) as [|d IH]; intros i level Hd.
  - reflexivity.
  - cbn [computeDeboorDerivative_rec].
    destruct (Z.leb_spec level 1).
    + assert (d = 0%nat) as -> by lia. reflexivity.
    + rewrite (IH i (level - 1)) by lia.
      rewrite (IH (to_size_t (i - 1)) (level - 1)) by lia. reflexivity.
Qed.

Variable quadrature : (F -> outcome F F) -> F -> F -> outcome F F.

(** X8: what segmentLength integrates is the speed getTangent reports. On
    every well-formed curve, at every parameter routed to the segment, the
    integrand of segmentLength is the length of the tangent of getTangent. *)
Theorem segmentFunction_is_speed c t :
  wellFormed c ->
  let s := segmentForT indexForT c t in
  value (segmentFunction c (to_size_t (s + splineDegree c - 1)) t)
  = (fun pt => v_length (pt_tangent pt)) <$> value (getTangent indexForT c t)
  /\ is_Some (value (getTangent indexForT c t)).
Proof.
  intros Hwf s. pose proof (segmentForT_valid indexForT c t Hwf) as Hs. fold s in Hs.
  destruct (position_of_segment c s t Hwf Hs) as (p & lp & Hp & _).
  destruct (derivative_of_segment c s t 1 Hwf Hs) as (d1 & l1 & H1 & _).
  unfold segmentFunction, getTangent. fold s.
  replace (s + splineDegree c - 1) with (s + (splineDegree c - 1)) by lia.
  rewrite !query_knotIndex by done.
  erewrite (bind_done (computeDeboorDerivative _ _ _ _ _)); [|exact H1|reflexivity].
  erewrite (bind_done (computeDeboor _ _ _ _)); [|exact Hp|];
    [|erewrite bind_done; [reflexivity|exact H1|reflexivity]].
  cbn. split; [done|by eexists].
Qed.

(** X9: a curve of degree 0 is a step function. With at least one position,
    getPosition returns the stored position of the located segment (the
    index arithmetic wraps below zero and back), and the tangent of
    getTangent is the default value. *)
Theorem degree_zero_is_a_step c t :
  splineDegree c = 0 ->
  1 <= vector_size (positions c) < size_t_modulus ->
  exists p,
    positions c !! Z.to_nat (segmentForT indexForT c t) = Some p
    /\ value (getPosition indexForT c t) = Some p
    /\ value (getTangent indexForT c t)
       = Some {| pt_position := p; pt_tangent := v_default |}.
Proof.
  intros HD Hsize.
  assert (Hcount : segmentCount c = vector_size (positions c)).
  { unfold segmentCount. rewrite HD, Z.sub_0_r. apply to_size_t_id. lia. }
  assert (Hone : 1 <= segmentCount c) by (rewrite Hcount; lia).
  pose proof (segmentForT_bounds indexForT c t Hone) as Hs.
  set (s := segmentForT indexForT c t) in *.
  assert (Hidx : to_size_t (to_size_t (s + (splineDegree c - 1)) + 1) = s).
  { rewrite to_size_t_succ, HD. replace (s + (0 - 1) + 1) with s by lia.
    apply to_size_t_id. lia. }
  destruct (at_index_in_range (F:=F) (positions c) s) as (p & Ha & Hlook); [lia|].
  exists p. split; [done|].
  unfold getPosition, getTangent. fold s. rewrite !Hidx, HD.
  unfold computeDeboor, computeDeboorDerivative. cbn [Z.ltb Z.compare].
  change (Z.to_nat 0) with 0%nat. cbn [computeDeboor_rec computeDeboorDerivative_rec].
  assert (Hp : (record (F:=F) (EvDeboor s 0) ≫= λ _ : unit, at_index (positions c) s)
               = Done p ([EvDeboor s 0] ++ [])).
  { eapply bind_done; [reflexivity|exact Ha]. }
  rewrite Hp. done.
Qed.

End QueryFacts.

(** ** The helpers of [test/common.h] *)

Section PaddingFacts.
Context {F V : Type} `{FloatingOps F} `{InterpolationOps F V}.
Implicit Types (lst front back : list V).

Lemma padFront_spec n :
  forall lst,
    (2 <= length lst)%nat ->
    exists front,
      padFront (F:=F) n lst = Done (front ++ lst) []
      /\ length front = n
      /\ forall k, (k < n)%nat ->
           exists a b,
             (front ++ lst) !! S k = Some a
             /\ (front ++ lst) !! S (S k) = Some b
             /\ (front ++ lst) !! k = Some (v_sub a (v_sub b a)).
Proof.
  induction n as [|n IH]; intros lst Hlen.
  - exists []. split; [done|]. split; [done|]. intros k Hk. lia.
  - destruct lst as [|first [|second rest]]; cbn [length] in Hlen; try lia.
    set (x := v_sub first (v_sub second first)).
    destruct (IH (x :: first :: second :: rest)) as (front & Hrun & Hfront & Hlin);
      [cbn [length]; lia|].
    exists (front ++ [x]). rewrite <- app_assoc. cbn [app].
    split.
    { cbn [padFront].
      change (at_index (F:=F) (first :: second :: rest) 0) with (Done (F:=F) first []).
      change (at_index (F:=F) (first :: second :: rest) 1) with (Done (F:=F) second []).
      rewrite !bind_pure. exact Hrun. }
    split; [rewrite length_app; cbn; lia|].
    intros k Hk. destruct (decide (k < n)%nat) as [Hlt|Hge]; [by apply Hlin|].
    assert (k = n) as -> by lia. exists first, second.
    rewrite !lookup_app_r by lia.
    replace (S n - length front)%nat with 1%nat by lia.
    replace (S (S n) - length front)%nat with 2%nat by lia.
    replace (n - length front)%nat with 0%nat by lia. done.
Qed.

Lemma padBack_spec n :
  forall lst,
    (2 <= length lst)%nat -> Z.of_nat (length lst) + Z.of_nat n < size_t_modulus ->
    exists back,
      padBack (F:=F) n lst = Done (lst ++ back) []
      /\ length back = n
      /\ forall k, (k < n)%nat ->
           exists a b,
             (lst ++ back) !! (length lst + k - 1)%nat = Some a
             /\ (lst ++ back) !! (length lst + k - 2)%nat = Some b
             /\ (lst ++ back) !! (length lst + k)%nat = Some (v_add a (v_sub a b)).
Proof.
  induction n as [|n IH]; intros lst Hlen Hmax.
  - exists []. rewrite app_nil_r. split; [done|]. split; [done|]. intros k Hk. lia.
  - cbn [padBack]. unfold vector_size.
    rewrite (to_size_t_id (Z.of_nat (length lst) - 1)) by lia.
    rewrite (to_size_t_id (Z.of_nat (length lst) - 2)) by lia.
    destruct (at_index_in_range (F:=F) lst (Z.of_nat (length lst) - 1))
      as (a & Ha & Hla); [unfold vector_size; lia|].
    destruct (at_index_in_range (F:=F) lst (Z.of_nat (length lst) - 2))
      as (b & Hb & Hlb); [unfold vector_size; lia|].
    rewrite Ha, bind_pure, Hb, bind_pure.
    replace (Z.to_nat (Z.of_nat (length lst) - 1)) with (length lst - 1)%nat in Hla by lia.
    replace (Z.to_nat (Z.of_nat (length lst) - 2)) with (length lst - 2)%nat in Hlb by lia.
    set (x := v_add a (v_sub a b)).
    destruct (IH (lst ++ [x])) as (back & Hrun & Hback & Hlin).
    { rewrite length_app. cbn. lia. }
    { rewrite length_app. cbn [length]. lia. }
    exists (x :: back). rewrite <- app_assoc in Hrun, Hlin. cbn [app] in Hrun, Hlin.
    split; [exact Hrun|]. split; [cbn; lia|].
    intros k Hk. destruct k as [|k].
    + exists a, b. rewrite Nat.add_0_r.
      rewrite !lookup_app_l by lia. rewrite Hla, Hlb.
      rewrite lookup_app_r by lia. rewrite Nat.sub_diag. done.
    + destruct (Hlin k ltac:(lia)) as (a' & b' & Ha' & Hb' & Hx').
      rewrite length_app in Ha', Hb', Hx'. cbn [length] in Ha', Hb', Hx'.
      exists a', b'.
      replace (length lst + S k - 1)%nat with (length lst + 1 + k - 1)%nat by lia.
      replace (length lst + S k - 2)%nat with (length lst + 1 + k - 2)%nat by lia.
      replace (length lst + S k)%nat with (length lst + 1 + k)%nat by lia.
      done.
Qed.

(** X10: addPadding keeps the given points, in order, between paddingSize
    new points at the front and paddingSize new points at the back; every
    new point is the linear continuation of its two inner neighbours:
    [r[k] = r[k+1] - (r[k+2] - r[k+1])] at the front and
    [r[k] = r[k-1] + (r[k-1] - r[k-2])] at the back. *)
Theorem addPadding_extends_linearly lst paddingSize :
  (2 <= length lst)%nat -> 0 <= paddingSize ->
  Z.of_nat (length lst) + 2 * paddingSize < size_t_modulus ->
  exists front back,
    addPadding (F:=F) lst paddingSize = Done (front ++ lst ++ back) []
    /\ Z.of_nat (length front) = paddingSize
    /\ Z.of_nat (length back) = paddingSize
    /\ (forall k, (k < length front)%nat ->
        exists a b,
          (front ++ lst ++ back) !! S k = Some a
          /\ (front ++ lst ++ back) !! S (S k) = Some b
          /\ (front ++ lst ++ back) !! k = Some (v_sub a (v_sub b a)))
    /\ (forall k, (length front + length lst <= k < length (front ++ lst ++ back))%nat ->
        exists a b,
          (front ++ lst ++ back) !! (k - 1)%nat = Some a
          /\ (front ++ lst ++ back) !! (k - 2)%nat = Some b
          /\ (front ++ lst ++ back) !! k = Some (v_add a (v_sub a b))).
Proof.
  intros Hlen Hp Hmax.
  destruct (padFront_spec (Z.to_nat paddingSize) lst Hlen) as (front & Hfront & Hnf & Hlf).
  destruct (padBack_spec (Z.to_nat paddingSize) (front ++ lst)) as (back & Hback & Hnb & Hlb).
  { rewrite length_app. lia. }
  { rewrite length_app. lia. }
  exists front, back. rewrite <- app_assoc in Hback, Hlb.
  split; [|split; [lia|split; [lia|split]]].
  - unfold addPadding. rewrite Hfront, bind_pure. exact Hback.
  - intros k Hk. destruct (Hlf k ltac:(lia)) as (a & b & Ha & Hb & Hx).
    exists a, b. rewrite (app_assoc front lst back).
    assert (Hall : (length (front ++ lst) = length front + length lst)%nat)
      by apply length_app.
    rewrite !(lookup_app_l (front ++ lst) back) by lia. done.
  - intros k Hk. rewrite !length_app in Hk.
    destruct (Hlb (k - (length front + length lst))%nat ltac:(lia)) as (a & b & Ha & Hb & Hx).
    rewrite length_app in Ha, Hb, Hx.
    exists a, b.
    replace (k - 1)%nat
      with (length front + length lst + (k - (length front + length lst)) - 1)%nat by lia.
    replace (k - 2)%nat
      with (length front + length lst + (k - (length front + length lst)) - 2)%nat by lia.
    replace k
      with (length front + length lst + (k - (length front + length lst)))%nat at 3 by lia.
    done.
Qed.

(** X11: the edges of addPadding. With paddingSize 0 it returns the list as
    it is, whatever its size; with a positive paddingSize and fewer than two
    points it reads outside the list. *)
Theorem addPadding_edges lst paddingSize :
  (paddingSize = 0 -> addPadding (F:=F) lst paddingSize = Done lst [])
  /\ (0 < paddingSize -> (length lst < 2)%nat ->
      addPadding (F:=F) lst paddingSize = Stuck OutOfRange).
Proof.
  split.
  - intros ->. reflexivity.
  - intros Hp Hlen. unfold addPadding.
    destruct (Z.to_nat paddingSize) as [|n] eqn:Hn; [lia|].
    destruct lst as [|first [|second rest]]; [done|done|cbn [length] in Hlen; lia].
Qed.

End PaddingFacts.

Section TangentFacts.
Context {F V : Type} `{FloatingOps F} `{InterpolationOps F V}.
Variable half : F.
Implicit Types (points tangents : list V).

Lemma fillTangents_spec points indices :
  forall tangents0,
    Z.of_nat (length points) < size_t_modulus ->
    (forall i, i ∈ indices ->
       1 <= i /\ i + 1 < Z.of_nat (length points) /\ i < Z.of_nat (length tangents0)) ->
    exists tangents1,
      fillTangents (F:=F) half points indices tangents0 = Done tangents1 []
      /\ length tangents1 = length tangents0
      /\ forall j : nat,
           (Z.of_nat j ∈ indices ->
            exists next current previous,
              points !! S j = Some next /\ points !! j = Some current
              /\ points !! pred j = Some previous
              /\ tangents1 !! j
                 = Some (v_scale_left half
                           (v_add (v_sub next current) (v_sub current previous))))
           /\ (Z.of_nat j ∉ indices -> tangents1 !! j = tangents0 !! j).
Proof.
  induction indices as [|i indices IH]; intros tangents0 Hmax Hin.
  - exists tangents0. split; [done|]. split; [done|]. intros j. split; [|done].
    intros Hel. by apply elem_of_nil in Hel.
  - destruct (Hin i ltac:(left)) as (Hi1 & Hi2 & Hi3).
    cbn [fillTangents].
    rewrite (to_size_t_id (i + 1)) by lia. rewrite (to_size_t_id (i - 1)) by lia.
    destruct (at_index_in_range (F:=F) points (i + 1)) as (next & Hn & Hln);
      [unfold vector_size; lia|].
    destruct (at_index_in_range (F:=F) points i) as (current & Hc & Hlc);
      [unfold vector_size; lia|].
    destruct (at_index_in_range (F:=F) points (i - 1)) as (previous & Hp & Hlp);
      [unfold vector_size; lia|].
    rewrite Hn, bind_pure, Hc, bind_pure, Hp, bind_pure.
    rewrite set_index_in_range by (unfold vector_size; lia). rewrite bind_pure.
    set (g := v_scale_left half (v_add (v_sub next current) (v_sub current previous))).
    destruct (IH (<[Z.to_nat i := g]> tangents0)) as (tangents1 & Hrun & Hlen & Hlook);
      [done|intros k Hk; rewrite length_insert; apply Hin; by right|].
    exists tangents1. split; [exact Hrun|]. split; [by rewrite Hlen, length_insert|].
    intros j. destruct (Hlook j) as [Hmem Hnot]. split.
    + intros Hel. destruct (decide (Z.of_nat j ∈ indices)) as [Hrest|Hrest]; [by apply Hmem|].
      apply elem_of_cons in Hel as [Heq|Hel]; [|done].
      exists next, current, previous.
      replace (S j) with (Z.to_nat (i + 1)) by lia.
      replace (pred j) with (Z.to_nat (i - 1)) by lia.
      replace j with (Z.to_nat i) at 1 by lia.
      repeat split; try done.
      rewrite (Hnot Hrest). replace j with (Z.to_nat i) by lia.
      apply list_lookup_insert_eq. lia.
    + intros Hel. rewrite Hnot by (intros Hrest; apply Hel; apply elem_of_cons; by right).
      apply list_lookup_insert_ne. intros Heq. apply Hel. apply elem_of_cons. left. lia.
Qed.

(** X12: makeTangents needs two points: on fewer (also on none) its first
    statement reads points[1], outside the list. *)
Theorem makeTangents_needs_two_points points :
  (length points < 2)%nat -> makeTangents (F:=F) half points = Stuck OutOfRange.
Proof.
  intros Hlen. unfold makeTangents.
  destruct points as [|first [|second rest]]; [done|done|cbn [length] in Hlen; lia].
Qed.

(** X13: on two points or more makeTangents returns as many tangents as
    points: the one-sided difference points[1] - points[0] at the start,
    points[n-1] - points[n-2] at the end, and in between
    0.5 * ((points[i+1] - points[i]) + (points[i] - points[i-1])). *)
Theorem makeTangents_finite_differences points :
  (2 <= length points)%nat -> Z.of_nat (length points) < size_t_modulus ->
  exists tangents,
    makeTangents (F:=F) half points = Done tangents []
    /\ length tangents = length points
    /\ (exists first second,
          points !! 0%nat = Some first /\ points !! 1%nat = Some second
          /\ tangents !! 0%nat = Some (v_sub second first))
    /\ (exists last beforeLast,
          points !! (length points - 1)%nat = Some last
          /\ points !! (length points - 2)%nat = Some beforeLast
          /\ tangents !! (length points - 1)%nat = Some (v_sub last beforeLast))
    /\ (forall j, (1 <= j)%nat -> (j + 1 < length points)%nat ->
        exists next current previous,
          points !! S j = Some next /\ points !! j = Some current
          /\ points !! pred j = Some previous
          /\ tangents !! j
             = Some (v_scale_left half
                       (v_add (v_sub next current) (v_sub current previous)))).
Proof.
  intros Hlen Hmax. unfold makeTangents.
  destruct (at_index_in_range (F:=F) points 1) as (second & Hs & Hls);
    [unfold vector_size; lia|].
  destruct (at_index_in_range (F:=F) points 0) as (first & Hf & Hlf);
    [unfold vector_size; lia|].
  rewrite Hs, bind_pure, Hf, bind_pure.
  set (tangents0 := replicate (length points) (v_default : V)).
  assert (Hlen0 : length tangents0 = length points) by apply length_replicate.
  rewrite set_index_in_range by (unfold vector_size; lia). rewrite bind_pure.
  change (Z.to_nat 0) with 0%nat.
  rewrite (to_size_t_id (vector_size points - 1)) by (unfold vector_size; lia).
  rewrite (to_size_t_id (vector_size points - 2)) by (unfold vector_size; lia).
  destruct (fillTangents_spec points (seqZ 1 (vector_size points - 1 - 1))
              (<[0%nat := v_sub second first]> tangents0) Hmax)
    as (tangents2 & Hrun & Hlen2 & Hlook).
  { intros i Hi. apply elem_of_seqZ in Hi. rewrite length_insert.
    unfold vector_size in Hi. lia. }
  rewrite length_insert in Hlen2.
  rewrite Hrun, bind_pure.
  destruct (at_index_in_range (F:=F) points (vector_size points - 1))
    as (last & Hl & Hll); [unfold vector_size; lia|].
  destruct (at_index_in_range (F:=F) points (vector_size points - 2))
    as (beforeLast & Hb & Hlb); [unfold vector_size; lia|].
  rewrite Hl, bind_pure, Hb, bind_pure.
  rewrite (to_size_t_id (vector_size tangents2 - 1)) by (unfold vector_size; lia).
  rewrite set_index_in_range by (unfold vector_size; lia).
  unfold vector_size in *.
  replace (Z.to_nat (Z.of_nat (length tangents2) - 1)) with (length points - 1)%nat by lia.
  replace (Z.to_nat (Z.of_nat (length points) - 1)) with (length points - 1)%nat in Hll by lia.
  replace (Z.to_nat (Z.of_nat (length points) - 2)) with (length points - 2)%nat in Hlb by lia.
  eexists. split; [reflexivity|]. split; [rewrite length_insert; lia|].
  split; [|split].
  - exists first, second. repeat split; try done.
    rewrite list_lookup_insert_ne by lia.
    destruct (Hlook 0%nat) as [_ Hnot]. rewrite Hnot.
    + apply list_lookup_insert_eq. lia.
    + intros Hel. apply elem_of_seqZ in Hel. lia.
  - exists last, beforeLast. repeat split; try done.
    apply list_lookup_insert_eq. lia.
  - intros j Hj1 Hj2. destruct (Hlook j) as [Hmem _].
    destruct Hmem as (next & current & previous & Hn & Hc & Hp & Ht).
    { apply elem_of_seqZ. lia. }
    exists next, current, previous. repeat split; try done.
    rewrite list_lookup_insert_ne by lia. exact Ht.
Qed.

End TangentFacts.

(** ** compareFloatsLenient *)

Lemma binary_round_aux_sign sx mx ex lx :
  match binary_round_aux Binary32.prec Binary32.emax sx mx ex lx with
  | S754_zero s | S754_infinity s | S754_finite s _ _ => s = sx
  | S754_nan => True
  end.
Proof.
  unfold binary_round_aux.
  destruct (shr_fexp _ _ mx ex lx) as [mrs' e'].
  destruct (shr_fexp _ _ _ e' loc_Exact) as [mrs'' e''].
  destruct (shr_m mrs''); [done| |done].
  by destruct (e'' <=? _).
Qed.

(** X14: compareFloatsLenient divides the absolute error by [expected]
    itself, not by its magnitude. With a negative expected value the
    relative error is never positive, so the comparison never fails for a
    tolerance that is not negative, whatever the actual value is. *)
Theorem compareFloatsLenient_negative_expected actual expected tol :
  SFltb expected (Binary32.of_int 0) = true ->
  SFltb tol (Binary32.of_int 0) = false ->
  compareFloatsLenient actual expected tol = false.
Proof.
  intros Hneg Htol. unfold compareFloatsLenient.
  set (diff := SFabs (SFsub Binary32.prec Binary32.emax actual expected)).
  assert (Habs : match diff with
                 | S754_zero s | S754_infinity s | S754_finite s _ _ => s = false
                 | S754_nan => True
                 end).
  { unfold diff. by destruct (SFsub _ _ actual expected). }
  assert (Herr : match SFdiv Binary32.prec Binary32.emax diff expected with
                 | S754_zero s | S754_infinity s | S754_finite s _ _ => s = true
                 | S754_nan => True
                 end).
  { destruct expected as [se|se| |se me ee]; cbn in Hneg; try done;
      destruct se; try done;
      destruct diff as [sd|sd| |sd md ed]; cbn in Habs |- *; try done; subst sd; try done.
    destruct (SFdiv_core_binary _ _ _ _ _ _) as [[mz ez] lz].
    apply (binary_round_aux_sign true mz ez lz). }
  destruct (SFdiv _ _ diff expected) as [s|s| |s m e]; try subst s;
    destruct tol as [st|st| |st mt et]; cbn in Htol |- *; try done;
    by destruct st.
Qed.

(** ** Concrete runs of the further properties *)

(** The open constructor on the five points at degree 3. *)
Lemma GenericBSpline_stores_table_witness :
  0 < 3 < vector_size Sample.fivePoints
  /\ exists c,
       Sample.GenericBSpline Sample.fivePoints 3 = Done c []
       /\ positions c = Sample.fivePoints
       /\ splineDegree c = 3
       /\ (forall j, 0 <= j < vector_size Sample.fivePoints + 2 * (3 - 1) ->
           knotAt c j
           = Some (default (Binary32.of_int 0)
                     (computeTValuesWithOuterPadding (F:=Binary32.float)
                        Sample.fivePoints (Binary32.of_int 0) (3 - 1) !! (j - (3 - 1)))))
       /\ (forall s, 0 <= s < vector_size Sample.fivePoints + (3 - 1) ->
           segmentT c s
           = Done (default (Binary32.of_int 0)
                     (computeTValuesWithOuterPadding (F:=Binary32.float)
                        Sample.fivePoints (Binary32.of_int 0) (3 - 1) !! s)) []).
Proof.
  split; [unfold vector_size; cbn; lia|].
  exact (GenericBSpline_stores_table (F:=Binary32.float) (V:=Vector2.t) computeTValuesWithOuterPadding false
           Sample.fivePoints 3
           ltac:(unfold vector_size; cbn; lia) ltac:(unfold vector_size; cbn; lia)
           ltac:(vm_compute; reflexivity)).
Defined.

(** The looping constructor on the five points at degree 3: the stored
    positions are the fifth point, the five points, and the first two. *)
Lemma LoopingGenericBSpline_rotates_witness :
  0 < 3 < vector_size Sample.fivePoints
  /\ exists c lastPoint,
       Sample.LoopingGenericBSpline Sample.fivePoints 3 = Done c []
       /\ Sample.fivePoints !! (length Sample.fivePoints - 1)%nat = Some lastPoint
       /\ positions c
          = lastPoint :: Sample.fivePoints ++ take (Z.to_nat (3 - 1)) Sample.fivePoints.
Proof.
  split; [unfold vector_size; cbn; lia|].
  exact (LoopingGenericBSpline_rotates (F:=Binary32.float) (V:=Vector2.t) computeLoopingTValues false
           Sample.fivePoints 3
           ltac:(unfold vector_size; cbn; lia) ltac:(unfold vector_size; cbn; lia)
           ltac:(vm_compute; reflexivity)).
Defined.

(** The knots of the looping curve on the five points at degree 3. *)
Lemma LoopingGenericBSpline_stores_table_witness :
  0 < 3 < vector_size Sample.fivePoints
  /\ exists c,
       Sample.LoopingGenericBSpline Sample.fivePoints 3 = Done c []
       /\ splineDegree c = 3
       /\ (forall j, 0 <= j < vector_size Sample.fivePoints + 2 * (3 - 1) + 1 ->
           knotAt c j
           = Some (default (Binary32.of_int 0)
                     (computeLoopingTValues (F:=Binary32.float)
                        Sample.fivePoints (Binary32.of_int 0) (3 - 1) !! (j - (3 - 1)))))
       /\ (forall s, 0 <= s <= vector_size Sample.fivePoints + (3 - 1) ->
           segmentT c s
           = Done (default (Binary32.of_int 0)
                     (computeLoopingTValues (F:=Binary32.float)
                        Sample.fivePoints (Binary32.of_int 0) (3 - 1) !! s)) []).
Proof.
  split; [unfold vector_size; cbn; lia|].
  exact (LoopingGenericBSpline_stores_table (F:=Binary32.float) (V:=Vector2.t) computeLoopingTValues false
           Sample.fivePoints 3
           ltac:(unfold vector_size; cbn; lia) ltac:(unfold vector_size; cbn; lia)
           ltac:(vm_compute; reflexivity)).
Defined.

(** Moving the fifth control point leaves the first segment as it was. *)
Lemma queries_local_witness :
  Sample.segmentForT Sample.fiveCurve (Binary32.of_int 0) = 0
  /\ positions Sample.fiveCurve <> positions TestSample.movedCurve
  /\ Sample.getPosition Sample.fiveCurve (Binary32.of_int 0)
     = Sample.getPosition TestSample.movedCurve (Binary32.of_int 0)
  /\ Sample.getTangent Sample.fiveCurve (Binary32.of_int 0)
     = Sample.getTangent TestSample.movedCurve (Binary32.of_int 0)
  /\ Sample.getCurvature Sample.fiveCurve (Binary32.of_int 0)
     = Sample.getCurvature TestSample.movedCurve (Binary32.of_int 0)
  /\ Sample.getWiggle Sample.fiveCurve (Binary32.of_int 0)
     = Sample.getWiggle TestSample.movedCurve (Binary32.of_int 0).
Proof.
  assert (Hseg : segmentForT getIndexForT Sample.fiveCurve (Binary32.of_int 0) = 0)
    by (vm_compute; reflexivity).
  split; [exact Hseg|]. split; [vm_compute; discriminate|].
  apply (queries_local getIndexForT Sample.fiveCurve TestSample.movedCurve
           (Binary32.of_int 0));
    [cbn; lia|reflexivity|reflexivity|reflexivity
    |rewrite Hseg; unfold size_t_modulus; cbn; lia|].
  rewrite Hseg. intros j Hj. cbn in Hj.
  assert (Hcases : j = 0 \/ j = 1 \/ j = 2 \/ j = 3) by lia.
  destruct Hcases as [-> | [-> | [-> | ->]]]; reflexivity.
Defined.

(** The cubic five-point curve: 7 divisions for a position, 28 for getWiggle. *)
Lemma queries_division_count_witness :
  wellFormed Sample.fiveCurve
  /\ divisionCount (log_of (Sample.getPosition Sample.fiveCurve (Binary32.of_int 1)))
     = 7%nat
  /\ divisionCount (log_of (Sample.getWiggle Sample.fiveCurve (Binary32.of_int 1)))
     = 28%nat.
Proof.
  split; [exact fiveCurve_wellFormed|].
  destruct (queries_division_count getIndexForT Sample.fiveCurve (Binary32.of_int 1)
              fiveCurve_wellFormed) as (Hp & _ & _ & Hw).
  split; [exact Hp|exact Hw].
Defined.

(** A cubic with two positions: getPosition(-1) is undefined. *)
Lemma queries_need_enough_positions_witness :
  0 <= splineDegree TestSample.starvedCurve
  /\ vector_size (positions TestSample.starvedCurve) <= splineDegree TestSample.starvedCurve
  /\ value (Sample.getPosition TestSample.starvedCurve (Binary32.of_int (-1))) = None
  /\ value (Sample.getWiggle TestSample.starvedCurve (Binary32.of_int (-1))) = None.
Proof.
  split; [cbn; lia|]. split; [vm_compute; discriminate|].
  destruct (queries_need_enough_positions getIndexForT TestSample.starvedCurve
              (Binary32.of_int (-1))) as (Hp & _ & _ & Hw);
    [cbn; lia|vm_compute; discriminate|vm_compute; reflexivity|].
  split; [exact Hp|exact Hw].
Defined.

(** The third derivative of the cubic five-point curve at 0 and at 1. *)
Lemma top_derivative_ignores_parameter_witness :
  splineDegree Sample.fiveCurve <= 3
  /\ computeDeboorDerivative Sample.fiveCurve 3 3 (Binary32.of_int 0) 3
     = computeDeboorDerivative Sample.fiveCurve 3 3 (Binary32.of_int 1) 3.
Proof.
  split; [cbn; lia|].
  apply (top_derivative_ignores_parameter Sample.fiveCurve 3
           (Binary32.of_int 0) (Binary32.of_int 1) 3).
  cbn; lia.
Defined.

(** The integrand of the five-point curve at the parameter 1. *)
Lemma segmentFunction_is_speed_witness :
  wellFormed Sample.fiveCurve
  /\ value (segmentFunction Sample.fiveCurve
              (to_size_t (Sample.segmentForT Sample.fiveCurve (Binary32.of_int 1) + 3 - 1))
              (Binary32.of_int 1))
     = (fun pt => v_length (pt_tangent pt))
         <$> value (Sample.getTangent Sample.fiveCurve (Binary32.of_int 1)).
Proof.
  split; [exact fiveCurve_wellFormed|].
  exact (proj1 (segmentFunction_is_speed getIndexForT Sample.fiveCurve (Binary32.of_int 1)
                  fiveCurve_wellFormed)).
Defined.

(** The five points at degree 0, at the parameter -1. *)
Lemma degree_zero_is_a_step_witness :
  splineDegree TestSample.stepCurve = 0
  /\ exists p,
       positions TestSample.stepCurve
         !! Z.to_nat (Sample.segmentForT TestSample.stepCurve (Binary32.of_int (-1)))
       = Some p
       /\ value (Sample.getPosition TestSample.stepCurve (Binary32.of_int (-1))) = Some p
       /\ value (Sample.getTangent TestSample.stepCurve (Binary32.of_int (-1)))
          = Some {| pt_position := p; pt_tangent := v_default |}.
Proof.
  split; [reflexivity|].
  apply (degree_zero_is_a_step getIndexForT TestSample.stepCurve (Binary32.of_int (-1)));
    [reflexivity|split; vm_compute; [discriminate|reflexivity]].
Defined.

(** The five points padded by two on each side. *)
Lemma addPadding_extends_linearly_witness :
  (2 <= length Sample.fivePoints)%nat
  /\ exists front back,
       TestSample.addPadding Sample.fivePoints 2
       = Done (front ++ Sample.fivePoints ++ back) []
       /\ Z.of_nat (length front) = 2
       /\ Z.of_nat (length back) = 2.
Proof.
  split; [cbn; lia|].
  destruct (addPadding_extends_linearly (F:=Binary32.float) Sample.fivePoints 2)
    as (front & back & Hrun & Hf & Hb & _);
    [cbn; lia|lia|unfold size_t_modulus; cbn; lia|].
  by exists front, back.
Defined.

(** Padding by zero, and padding a single point. *)
Lemma addPadding_edges_witness :
  TestSample.addPadding [] 0 = Done [] []
  /\ TestSample.addPadding [Vector2.of_ints 1 2] 3 = Stuck OutOfRange.
Proof.
  split.
  - exact (proj1 (addPadding_edges (F:=Binary32.float) (V:=Vector2.t) [] 0) eq_refl).
  - apply (proj2 (addPadding_edges (F:=Binary32.float) [Vector2.of_ints 1 2] 3));
      [lia|cbn; lia].
Defined.

(** No points, and one point. *)
Lemma makeTangents_needs_two_points_witness :
  TestSample.makeTangents [] = Stuck OutOfRange
  /\ TestSample.makeTangents [Vector2.of_ints 1 2] = Stuck OutOfRange.
Proof.
  split.
  - apply (makeTangents_needs_two_points (F:=Binary32.float) (V:=Vector2.t));
      cbn; lia.
  - apply (makeTangents_needs_two_points (F:=Binary32.float)); cbn; lia.
Defined.

(** The tangents of the five points. *)
Lemma makeTangents_finite_differences_witness :
  (2 <= length Sample.fivePoints)%nat
  /\ exists tangents,
       TestSample.makeTangents Sample.fivePoints = Done tangents []
       /\ length tangents = length Sample.fivePoints.
Proof.
  split; [cbn; lia|].
  destruct (makeTangents_finite_differences (F:=Binary32.float) TestSample.half
              Sample.fivePoints) as (tangents & Hrun & Hlen & _);
    [cbn; lia|unfold size_t_modulus; cbn; lia|].
  by exists tangents.
Defined.

(** Actual 5 against expected -1 at tolerance 0: no failure. *)
Lemma compareFloatsLenient_negative_expected_witness :
  SFltb (Binary32.of_int (-1)) (Binary32.of_int 0) = true
  /\ SFltb (Binary32.of_int 0) (Binary32.of_int 0) = false
  /\ compareFloatsLenient (Binary32.of_int 5) (Binary32.of_int (-1)) (Binary32.of_int 0)
     = false.
Proof.
  split; [reflexivity|]. split; [reflexivity|].
  apply compareFloatsLenient_negative_expected; reflexivity.
Defined.
